(** * vmaxtui: VoxelMax decoder and watch/render pipeline

    A shallow embedding of the parts of [oomer_voxel_vmax.h],
    [oomer_filequeue.h] and [vmaxtui.cpp] that carry the voxel decoder,
    the file queue, the watch dispatcher and the render loop, followed
    by the properties established about them.

    Conventions.  A fixed-width C++ integer is an integer of [Z] with
    its conversions written out.  A byte stream is a list of [Z] whose
    elements are [uint8_t] values.  [std::vector] is [list];
    [std::map<std::string, bool>] is [gmap string bool].  Code that can
    read past the end of a vector returns an [outcome].  External
    libraries (libplist, stb_image, efsw, the rendering engine) appear
    through the values they hand to the code and the calls the code
    makes to them. *)

From stdpp Require Import base list strings gmap sets.
From Stdlib Require Import ZArith Lia.

Local Open Scope Z_scope.

(** * Part I: the program *)

(** ** Integer conversions *)

(** [static_cast<uint8_t>], [static_cast<uint16_t>] and the implicit
    conversions to [uint32_t] and [uint64_t]/[size_t]. *)
Definition u8 (n : Z) : Z := n mod 256.
Definition u16 (n : Z) : Z := n mod 65536.
Definition u32 (n : Z) : Z := n mod 4294967296.
Definition u64 (n : Z) : Z := n mod 18446744073709551616.

(** Conversion to [int] and [static_cast<int64_t>] (two's complement). *)
Definition to_int (n : Z) : Z :=
  let m := u32 n in if m <? 2147483648 then m else m - 4294967296.

Definition to_int64 (n : Z) : Z :=
  let m := u64 n in
  if m <? 9223372036854775808 then m else m - 18446744073709551616.

Definition INT_MAX : Z := 2147483647.

(** ** Outcomes of code that indexes vectors

    [operator[]] on a [std::vector] and indexing of a raw buffer are
    unchecked: a read past the end is undefined behaviour.  The model
    makes such a read, and overflow of an [int] counter, explicit
    outcomes next to the normal return.  [OutOfFuel] belongs to the
    model only: loops are unrolled on a fuel argument, and it is shown
    in Part III that the fuel supplied is never used up. *)
Inductive outcome (A : Type) : Type :=
| Returned (a : A)
| OutOfBounds (index : Z)
| SignedOverflow
| OutOfFuel.

Arguments Returned {A} a.
Arguments OutOfBounds {A} index.
Arguments SignedOverflow {A}.
Arguments OutOfFuel {A}.

(** What a caller goes on to compute from a returned value. *)
Definition outcome_map {A B : Type} (f : A -> B) (o : outcome A) : outcome B :=
  match o with
  | Returned a => Returned (f a)
  | OutOfBounds i => OutOfBounds i
  | SignedOverflow => SignedOverflow
  | OutOfFuel => OutOfFuel
  end.

(** ** Morton codec ([oomer_voxel_vmax.h], lines 199-214) *)

(** [compactBits] on a [uint32_t]: every step is a right shift, an
    exclusive or and a mask, so no intermediate value leaves 32 bits. *)
Definition compactBits (n : Z) : Z :=
  let n := Z.land n 0x49249249 in
  let n := Z.land (Z.lxor n (Z.shiftr n 2)) 0xc30c30c3 in
  let n := Z.land (Z.lxor n (Z.shiftr n 4)) 0x0f00f00f in
  let n := Z.land (Z.lxor n (Z.shiftr n 8)) 0x00ff00ff in
  let n := Z.land (Z.lxor n (Z.shiftr n 16)) 0x0000ffff in
  n.

(** [decodeMorton3DOptimized]: the three reference parameters become the
    returned triple.  Callers pass a value already converted to
    [uint32_t]. *)
Definition decodeMorton3DOptimized (morton : Z) : Z * Z * Z :=
  (compactBits morton,
   compactBits (Z.shiftr morton 1),
   compactBits (Z.shiftr morton 2)).

(** ** Voxels ([oomer_voxel_vmax.h], lines 181-197) *)

Record VmaxVoxel : Type := mkVmaxVoxel {
  v_x : Z;            (* uint8_t x *)
  v_y : Z;            (* uint8_t y *)
  v_z : Z;            (* uint8_t z *)
  v_material : Z;     (* uint8_t material *)
  v_palette : Z;      (* uint8_t palette *)
  v_chunkID : Z;      (* uint16_t chunkID *)
  v_minMorton : Z     (* uint16_t minMorton *)
}.

(** The constructor [VmaxVoxel(uint8_t, uint8_t, uint8_t, uint8_t,
    uint8_t, uint16_t, uint16_t)] called on [int] arguments: each
    argument is converted to the width of its parameter. *)
Definition VmaxVoxel_ctor (x y z material palette chunkID minMorton : Z)
  : VmaxVoxel :=
  mkVmaxVoxel (u8 x) (u8 y) (u8 z) (u8 material) (u8 palette)
              (u16 chunkID) (u16 minMorton).

(** ** Chunk decoder ([decodeVoxels], lines 375-401)

    [mortonOffset] is the [int] parameter, [chunkID] the [uint16_t]
    parameter.  The loop condition [i < dsData.size() - 1] is evaluated
    in [size_t]: both sides are reduced modulo 2^64.  The sum
    [i/2 + mortonOffset] is converted to [uint32_t] for the decoder.
    An [int] sum that overflows is undefined; [i += 2] is checked,
    [i/2 + mortonOffset] is taken to wrap. *)
Fixpoint decodeVoxels_loop (fuel : nat) (dsData : list Z)
    (mortonOffset chunkID : Z) (i : Z) (voxels : list VmaxVoxel)
  : outcome (list VmaxVoxel) :=
  match fuel with
  | O => OutOfFuel
  | S fuel =>
    if u64 i <? u64 (Z.of_nat (length dsData) - 1) then
      match dsData !! Z.to_nat i, dsData !! Z.to_nat (i + 1) with
      | Some material, Some color =>
        let '(_tempx, _tempy, _tempz) :=
          decodeMorton3DOptimized (u32 (Z.quot i 2 + mortonOffset)) in
        let voxels :=
          if color =? 0 then voxels
          else voxels ++ [mkVmaxVoxel (u8 _tempx) (u8 _tempy) (u8 _tempz)
                                      material color chunkID
                                      (u16 mortonOffset)] in
        if INT_MAX - 2 <? i then SignedOverflow
        else decodeVoxels_loop fuel dsData mortonOffset chunkID (i + 2) voxels
      | None, _ => OutOfBounds i
      | Some _, None => OutOfBounds (i + 1)
      end
    else Returned voxels
  end.

Definition decodeVoxels (dsData : list Z) (mortonOffset chunkID : Z)
  : outcome (list VmaxVoxel) :=
  decodeVoxels_loop (S (length dsData)) dsData mortonOffset chunkID 0 [].

(** ** Snapshots and the model assembler *)

(** What the assembler reads from one element of the [snapshots] array
    through libplist: [s.id.c], [s.id.t], element 3 of [s.st.min] (all
    through [plist_get_uint_val], hence 64-bit unsigned) and the bytes of
    [s.ds]. *)
Record Snapshot : Type := mkSnapshot {
  s_id_c : Z;
  s_id_t : Z;
  s_st_min3 : Z;
  s_ds : list Z
}.

(** [VmaxChunkInfo] (lines 404-411) and [vmaxChunkInfo] (lines 430-469)
    on a snapshot that has all three fields. *)
Record VmaxChunkInfo : Type := mkVmaxChunkInfo {
  ci_id : Z;              (* int64_t id *)
  ci_type : Z;            (* uint64_t type *)
  ci_mortoncode : Z;      (* uint64_t mortoncode *)
  ci_voxelOffsetX : Z;
  ci_voxelOffsetY : Z;
  ci_voxelOffsetZ : Z
}.

Definition vmaxChunkInfo (snapshot : Snapshot) : VmaxChunkInfo :=
  let mortoncode := s_st_min3 snapshot in
  let '(voxelOffsetX, voxelOffsetY, voxelOffsetZ) :=
    decodeMorton3DOptimized (u32 mortoncode) in
  mkVmaxChunkInfo (to_int64 (s_id_c snapshot)) (s_id_t snapshot) mortoncode
                  voxelOffsetX voxelOffsetY voxelOffsetZ.

(** [vmaxVoxelInfo] (lines 476-526): decode the stream, then move every
    voxel by the decoded chunk coordinate times 8.  The voxel keeps the
    chunk id and offset that [decodeVoxels] gave it. *)
Definition vmaxVoxelInfo (data : list Z) (chunkID minMorton : Z)
  : outcome (list VmaxVoxel) :=
  match decodeVoxels data (to_int minMorton) (u16 chunkID) with
  | Returned allModelVoxels =>
    let '(model_8x8x8_x, model_8x8x8_y, model_8x8x8_z) :=
      decodeMorton3DOptimized (u32 chunkID) in
    let model_256x256x256_x := to_int (model_8x8x8_x * 8) in
    let model_256x256x256_y := to_int (model_8x8x8_y * 8) in
    let model_256x256x256_z := to_int (model_8x8x8_z * 8) in
    Returned
      ((fun eachVmaxVoxel =>
          VmaxVoxel_ctor (model_256x256x256_x + v_x eachVmaxVoxel)
                         (model_256x256x256_y + v_y eachVmaxVoxel)
                         (model_256x256x256_z + v_z eachVmaxVoxel)
                         (v_material eachVmaxVoxel)
                         (v_palette eachVmaxVoxel)
                         (v_chunkID eachVmaxVoxel)
                         (v_minMorton eachVmaxVoxel))
       <$> allModelVoxels)
  | OutOfBounds i => OutOfBounds i
  | SignedOverflow => SignedOverflow
  | OutOfFuel => OutOfFuel
  end.

(** [VmaxModel] (lines 228-297): the file name and the table
    [voxels[8][256]] of voxel vectors. *)
Record VmaxModel : Type := mkVmaxModel {
  vmaxbFileName : string;
  voxels : list (list (list VmaxVoxel))
}.

Definition VmaxModel_new (modelName : string) : VmaxModel :=
  mkVmaxModel modelName (replicate 8 (replicate 256 [])).

Definition in_table (material color : Z) : bool :=
  (0 <=? material) && (material <? 8) && (0 <? color) && (color <? 256).

Definition addVoxel (model : VmaxModel)
    (x y z material color chunk chunkMin : Z) : VmaxModel :=
  if in_table material color then
    mkVmaxModel (vmaxbFileName model)
      (alter (alter (fun bucket =>
                       bucket ++ [VmaxVoxel_ctor x y z material color
                                                 chunk chunkMin])
                    (Z.to_nat color))
             (Z.to_nat material) (voxels model))
  else model.

Definition getVoxels (model : VmaxModel) (material color : Z)
  : list VmaxVoxel :=
  if in_table material color then
    default [] (voxels model !! Z.to_nat material ≫= (.!! Z.to_nat color))
  else [].

(** The snapshot loop of [convertVmaxToBella] ([vmaxtui.cpp], lines
    824-843). *)
Definition addSnapshotVoxels (chunkInfo : VmaxChunkInfo)
    (model : VmaxModel) (xvoxels : list VmaxVoxel) : VmaxModel :=
  foldl (fun model voxel =>
           addVoxel model (v_x voxel) (v_y voxel) (v_z voxel)
                    (v_material voxel) (v_palette voxel)
                    (to_int (ci_id chunkInfo))
                    (to_int (ci_mortoncode chunkInfo)))
        model xvoxels.

Fixpoint convertVmaxToBella_snapshots (snapshots : list Snapshot)
    (currentVmaxModel : VmaxModel) : outcome VmaxModel :=
  match snapshots with
  | [] => Returned currentVmaxModel
  | plist_snapshot :: rest =>
    let chunkInfo := vmaxChunkInfo plist_snapshot in
    match vmaxVoxelInfo (s_ds plist_snapshot) (u64 (ci_id chunkInfo))
                        (ci_mortoncode chunkInfo) with
    | Returned xvoxels =>
      convertVmaxToBella_snapshots rest
        (addSnapshotVoxels chunkInfo currentVmaxModel xvoxels)
    | OutOfBounds i => OutOfBounds i
    | SignedOverflow => SignedOverflow
    | OutOfFuel => OutOfFuel
    end
  end.

(** The translation that [addModelToScene] (lines 670-683) gives the
    instance of one voxel: the stored position plus 24 times the chunk
    coordinate decoded from the voxel's chunk id.  The components are
    the integers that the code then casts to [float]. *)
Definition instance_translation (eachvoxel : VmaxVoxel) : Z * Z * Z :=
  let '(_tempx, _tempy, _tempz) :=
    decodeMorton3DOptimized (v_chunkID eachvoxel) in
  let worldOffsetX := to_int (_tempx * 24) in
  let worldOffsetY := to_int (_tempy * 24) in
  let worldOffsetZ := to_int (_tempz * 24) in
  (v_x eachvoxel + worldOffsetX,
   v_y eachvoxel + worldOffsetY,
   v_z eachvoxel + worldOffsetZ).

(** ** Palette loader ([oomer_voxel_vmax.h], lines 142-173) *)

Record VmaxRGBA : Type := mkVmaxRGBA {
  rgba_r : Z;
  rgba_g : Z;
  rgba_b : Z;
  rgba_a : Z
}.

(** What [stbi_load] hands back when asked for four channels: the
    dimensions and [width * height * 4] bytes, row after row.  A null
    result is [None]. *)
Record StbImage : Type := mkStbImage {
  img_width : Z;
  img_height : Z;
  img_data : list Z
}.

(** The two messages written to [std::cerr]. *)
Inductive Diagnostic : Type :=
| ErrorLoading
| WarningDimensions (width height : Z).

Fixpoint palette_loop (fuel : nat) (data : list Z) (width i : Z)
    (palette : list VmaxRGBA) : outcome (list VmaxRGBA) :=
  match fuel with
  | O => OutOfFuel
  | S fuel =>
    if i <? width then
      match data !! Z.to_nat (i * 4), data !! Z.to_nat (i * 4 + 1),
            data !! Z.to_nat (i * 4 + 2), data !! Z.to_nat (i * 4 + 3) with
      | Some r, Some g, Some b, Some a =>
        palette_loop fuel data width (i + 1) (palette ++ [mkVmaxRGBA r g b a])
      | None, _, _, _ => OutOfBounds (i * 4)
      | _, None, _, _ => OutOfBounds (i * 4 + 1)
      | _, _, None, _ => OutOfBounds (i * 4 + 2)
      | _, _, _, None => OutOfBounds (i * 4 + 3)
      end
    else Returned palette
  end.

Definition read256x1PaletteFromPNG (loaded : option StbImage)
  : list Diagnostic * outcome (list VmaxRGBA) :=
  match loaded with
  | None => ([ErrorLoading], Returned [])
  | Some img =>
    let width := img_width img in
    let height := img_height img in
    (if negb (width =? 256) || negb (height =? 1)
     then [WarningDimensions width height] else [],
     palette_loop (S (Z.to_nat width)) (img_data img) width 0 [])
  end.

(** ** File queue ([oomer_filequeue.h], lines 37-142)

    Every method takes the queue's mutex for its whole body, so a method
    is one atomic step on the pair of containers. *)
Record FileQueue : Type := mkFileQueue {
  pathVector : list string;        (* std::vector<std::string> *)
  pathMap : gmap string bool       (* std::map<std::string, bool> *)
}.

Module FQ.

Definition new : FileQueue := mkFileQueue [] ∅.

Definition push (q : FileQueue) (path : string) : bool * FileQueue :=
  match pathMap q !! path with
  | None =>
    (true, mkFileQueue (pathVector q ++ [path]) (<[path := true]> (pathMap q)))
  | Some _ => (false, q)
  end.

(** [pop] and [probe] write their out-parameter only when they return
    [true]: the result is the written path, if any. *)
Definition pop (q : FileQueue) : option string * FileQueue :=
  match pathVector q with
  | outPath :: rest =>
    (Some outPath, mkFileQueue rest (delete outPath (pathMap q)))
  | [] => (None, q)
  end.

Definition probe (q : FileQueue) : option string * FileQueue :=
  match pathVector q with
  | outPath :: _ => (Some outPath, q)
  | [] => (None, q)
  end.

(** [remove]: [std::remove] drops every element equal to [path]. *)
Definition remove (q : FileQueue) (path : string) : bool * FileQueue :=
  match pathMap q !! path with
  | Some _ =>
    (true, mkFileQueue (filter (fun p => p <> path) (pathVector q))
                       (delete path (pathMap q)))
  | None => (false, q)
  end.

Definition contains (q : FileQueue) (path : string) : bool :=
  match pathMap q !! path with
  | Some _ => true
  | None => false
  end.

Definition size (q : FileQueue) : nat := length (pathVector q).

Definition empty (q : FileQueue) : bool :=
  match pathVector q with
  | [] => true
  | _ :: _ => false
  end.

Definition clear (q : FileQueue) : FileQueue := mkFileQueue [] ∅.

End FQ.

(** ** Watch dispatcher ([oomer_filequeue.h], lines 146-236) *)

(** [efsw::Action]; [BadAction] stands for any value outside the four
    enumerators. *)
Inductive Action : Type := Add | Delete | Modified | Moved | BadAction.

Definition getActionName (action : Action) : string :=
  match action with
  | Add => "Add"
  | Modified => "Modified"
  | Delete => "Delete"
  | Moved => "Moved"
  | BadAction => "Bad Action"
  end.

Definition endsWith (str suffix : string) : bool :=
  if (String.length str <? String.length suffix)%nat then false
  else String.eqb (String.substring (String.length str - String.length suffix)
                             (String.length suffix) str)
                  suffix.

(** The two global queues the listener holds references to and shares
    with the render loop.  [processQueue] is never touched. *)
Record Queues : Type := mkQueues {
  fileQueue : FileQueue;
  unfileQueue : FileQueue
}.

(** [UpdateListener::handleFileAction] (lines 179-218); [should_stop_]
    is read twice and is taken not to change in between. *)
Definition handleFileAction (should_stop_ : bool) (g : Queues)
    (dir filename : string) (action : Action) : Queues :=
  if should_stop_ then g
  else
    let actionName := getActionName action in
    let g :=
      if String.eqb actionName "Delete" then
        let belPath := dir +:+ filename in
        if endsWith belPath ".bsz" then
          if negb (FQ.contains (unfileQueue g) belPath) then
            mkQueues (fileQueue g) (FQ.push (unfileQueue g) belPath).2
          else g
        else g
      else g in
    if String.eqb actionName "Add" || String.eqb actionName "Modified" then
      let belPath := dir +:+ filename in
      let parentPath := dir in
      if should_stop_ then g
      else if endsWith belPath ".vmax" || endsWith belPath ".bsz"
              || endsWith belPath ".zip" && negb (endsWith parentPath "download/")
      then
        if negb (FQ.contains (fileQueue g) belPath) then
          mkQueues (FQ.push (fileQueue g) belPath).2 (unfileQueue g)
        else g
      else g
    else g.

(** ** Render loop ([vmaxtui.cpp], lines 406-485)

    The rendering engine and [convertVmaxToBella] are outside the loop:
    the model records the calls made to them, in order.  [dl::String]'s
    [endsWith] and [==] are the suffix test and string equality. *)
Inductive EngineCall : Type :=
| LoadScene (belPath : string)
| SetResolution (width height : Z)
| Start
| Stop.

Record WatchState : Type := mkWatchState {
  queues : Queues;                   (* fileQueue, unfileQueue (globals) *)
  global_currentRender : string;     (* ::currentRender, line 217 *)
  renderQueue : FileQueue;           (* line 399 *)
  renderUnqueue : FileQueue;         (* line 400 *)
  active_render : bool;              (* std::atomic<bool>, line 215 *)
  engine_calls : list EngineCall;
  conversions : list string
}.

Definition initial_state : WatchState :=
  mkWatchState (mkQueues FQ.new FQ.new) "" FQ.new FQ.new false [] [].

(** [while (src.pop(path)) dst.push(path);] The loop runs once per
    queued path; with as much fuel as the source has paths, the source
    is empty when the fuel is. *)
Fixpoint drain (fuel : nat) (src dst : FileQueue) : FileQueue * FileQueue :=
  match fuel with
  | O => (src, dst)
  | S fuel =>
    match FQ.pop src with
    | (Some path, src) => drain fuel src (FQ.push dst path).2
    | (None, src) => (src, dst)
    end
  end.

(** The [else] branch, lines 465-474: pop every delete; [currentRender]
    is the variable in scope at line 467. *)
Fixpoint pop_deletes (fuel : nat) (currentRender : string) (s : WatchState)
  : WatchState :=
  match fuel with
  | O => s
  | S fuel =>
    match FQ.pop (renderUnqueue s) with
    | (Some path, unqueue) =>
      let s :=
        if String.eqb path currentRender then
          mkWatchState (queues s) (global_currentRender s) (renderQueue s)
                       unqueue false (engine_calls s ++ [Stop]) (conversions s)
        else if FQ.contains (renderQueue s) path then
          mkWatchState (queues s) (global_currentRender s)
                       (FQ.remove (renderQueue s) path).2
                       unqueue (active_render s) (engine_calls s) (conversions s)
        else
          mkWatchState (queues s) (global_currentRender s) (renderQueue s)
                       unqueue (active_render s) (engine_calls s) (conversions s)
      in
      pop_deletes fuel currentRender s
    | (None, _) => s
    end
  end.

(** One pass through the body of [while (true)].  The declaration
    [dl::String currentRender;] at line 448 is inside the body: every
    pass starts with a fresh, empty string of that name, which hides the
    global of the same name. *)
Definition DL_main_iteration (s : WatchState) : WatchState :=
  let renderUnqueue0 :=
    if FQ.empty (renderQueue s) then FQ.clear (renderUnqueue s)
    else renderUnqueue s in
  let '(fileQueue1, renderQueue1) :=
    drain (FQ.size (fileQueue (queues s))) (fileQueue (queues s))
          (renderQueue s) in
  let fileQueue1 := FQ.clear fileQueue1 in
  let '(unfileQueue1, renderUnqueue1) :=
    drain (FQ.size (unfileQueue (queues s))) (unfileQueue (queues s))
          renderUnqueue0 in
  let unfileQueue1 := FQ.clear unfileQueue1 in
  let queues1 := mkQueues fileQueue1 unfileQueue1 in
  let expected := false in
  let currentRender := "" in
  if negb (FQ.empty renderQueue1) then
    if Bool.eqb (active_render s) expected then
      (* compare_exchange_strong succeeded: active_render is now true *)
      let '(popped, renderQueue2) := FQ.pop renderQueue1 in
      let belPath := default "" popped in
      if endsWith belPath ".bsz" then
        mkWatchState queues1 (global_currentRender s) renderQueue2
                     renderUnqueue1 true
                     (engine_calls s
                      ++ [LoadScene belPath; SetResolution 200 200; Start])
                     (conversions s)
      else if endsWith belPath ".vmax" then
        mkWatchState queues1 (global_currentRender s) renderQueue2
                     renderUnqueue1 true (engine_calls s)
                     (conversions s ++ [belPath])
      else
        mkWatchState queues1 (global_currentRender s) renderQueue2
                     renderUnqueue1 true (engine_calls s) (conversions s)
    else
      pop_deletes (FQ.size renderUnqueue1) currentRender
        (mkWatchState queues1 (global_currentRender s) renderQueue1
                      renderUnqueue1 (active_render s) (engine_calls s)
                      (conversions s))
  else
    mkWatchState queues1 (global_currentRender s) renderQueue1
                 renderUnqueue1 (active_render s) (engine_calls s)
                 (conversions s).

(** A callback of the watcher thread between two passes of the loop. *)
Definition watcher_event (dir filename : string) (action : Action)
    (s : WatchState) : WatchState :=
  mkWatchState (handleFileAction false (queues s) dir filename action)
               (global_currentRender s) (renderQueue s) (renderUnqueue s)
               (active_render s) (engine_calls s) (conversions s).

(** * Part II: specification-side definitions

    The statements of Part III are written with the definitions below.
    None of them is part of the program. *)

(** ** Morton interleaving *)

(** The interleaving the specification calls [encode3]: bit [i] of [x]
    lands at bit [3i], bit [i] of [y] at bit [3i+1], bit [i] of [z] at
    bit [3i+2].  The repository has no encoder; ten bits per axis fill
    the 30-bit codes the specification speaks of. *)
Definition spec_encode3_bit (x y z : Z) (i : nat) : Z :=
  let i := Z.of_nat i in
  Z.lor (Z.shiftl (Z.b2z (Z.testbit x i)) (3 * i))
    (Z.lor (Z.shiftl (Z.b2z (Z.testbit y i)) (3 * i + 1))
           (Z.shiftl (Z.b2z (Z.testbit z i)) (3 * i + 2))).

Definition spec_encode3 (x y z : Z) : Z :=
  foldr (fun i acc => Z.lor (spec_encode3_bit x y z i) acc) 0 (seq 0 10).

(** Boolean equality of coordinate triples and the exhaustive round-trip
    check over a cube of side [n]. *)
Definition triple_eqb (a b : Z * Z * Z) : bool :=
  let '(a1, a2, a3) := a in
  let '(b1, b2, b3) := b in
  (a1 =? b1) && (a2 =? b2) && (a3 =? b3).

Definition axis (n : nat) : list Z := Z.of_nat <$> seq 0 n.

Definition roundtrip_cube (n : nat) : bool :=
  forallb (fun x =>
    forallb (fun y =>
      forallb (fun z =>
        triple_eqb (decodeMorton3DOptimized (spec_encode3 x y z)) (x, y, z))
      (axis n)) (axis n)) (axis n).

(** Chunk ids below 512 decode to chunk coordinates below 8. *)
Definition chunk_coords_check : bool :=
  forallb (fun c => let '(cx, cy, cz) := decodeMorton3DOptimized c in
                    (cx <=? 7) && (cy <=? 7) && (cz <=? 7))
          (axis 512).

(** ** Chunk decoder *)

(** A stream on which the decoder's loop is well defined: at least one
    byte, and few enough for the [int] index. *)
Definition decodable (ds : list Z) : Prop :=
  ds <> [] /\ Z.of_nat (length ds) <= INT_MAX.

(** What the loop computes, pair by pair, with the conversions of the
    code: the Morton code is reduced to 32 bits and the stored offset to
    16 bits. *)
Fixpoint decode_pairs (mortonOffset chunkID : Z) (i : Z) (ds : list Z)
  : list VmaxVoxel :=
  match ds with
  | material :: color :: rest =>
    (if color =? 0 then []
     else let '(lx, ly, lz) :=
            decodeMorton3DOptimized (u32 (i + mortonOffset)) in
          [mkVmaxVoxel lx ly lz material color chunkID (u16 mortonOffset)])
    ++ decode_pairs mortonOffset chunkID (i + 1) rest
  | _ => []
  end.

(** The decoder as the specification words it: one voxel per complete
    (material, colour) pair whose colour is not 0, at the local position
    decoded from pair index plus base offset; an odd trailing byte is
    dropped. *)
Fixpoint spec_decode_chunk (b k : Z) (i : Z) (ds : list Z) : list VmaxVoxel :=
  match ds with
  | m :: c :: rest =>
    (if c =? 0 then []
     else let '(lx, ly, lz) := decodeMorton3DOptimized (i + b) in
          [mkVmaxVoxel lx ly lz m c k b])
    ++ spec_decode_chunk b k (i + 1) rest
  | _ => []
  end.

(** ** Model assembler *)

(** Every voxel of the model, bucket after bucket. *)
Definition allVoxels (model : VmaxModel) : list VmaxVoxel :=
  concat (concat (voxels model)).

(** Bucket [voxels[i][j]] of a table, the shape of the table, and the
    voxel that [addVoxel] emplaces for a voxel returned by
    [vmaxVoxelInfo]. *)
Definition bucket (t : list (list (list VmaxVoxel))) (i j : nat)
  : list VmaxVoxel :=
  default [] (t !! i ≫= (.!! j)).

Definition table_wf (t : list (list (list VmaxVoxel))) : Prop :=
  length t = 8%nat /\ Forall (fun row => length row = 256%nat) t.

Definition emplaced (chunkInfo : VmaxChunkInfo) (voxel : VmaxVoxel)
  : VmaxVoxel :=
  VmaxVoxel_ctor (v_x voxel) (v_y voxel) (v_z voxel)
                 (v_material voxel) (v_palette voxel)
                 (to_int (ci_id chunkInfo))
                 (to_int (ci_mortoncode chunkInfo)).

Definition in_bucket (material color : Z) (voxel : VmaxVoxel) : Prop :=
  v_material voxel = material /\ v_palette voxel = color.

(** The voxels one snapshot contributes to bucket (material, color). *)
Definition snapshot_bucket (material color : Z) (snapshot : Snapshot)
  : list VmaxVoxel :=
  let chunkInfo := vmaxChunkInfo snapshot in
  match vmaxVoxelInfo (s_ds snapshot) (u64 (ci_id chunkInfo))
                      (ci_mortoncode chunkInfo) with
  | Returned xvoxels => emplaced chunkInfo <$> filter (in_bucket material color) xvoxels
  | _ => []
  end.

(** A voxel local to a 32x32x32 chunk. *)
Definition local_voxel (l : VmaxVoxel) : Prop :=
  (0 <= v_x l <= 31 /\ 0 <= v_y l <= 31 /\ 0 <= v_z l <= 31)
  /\ 0 <= v_material l < 256 /\ 0 <= v_palette l < 256.

(** What [vmaxVoxelInfo] makes of a local voxel of a chunk at chunk
    coordinate [(cx, cy, cz)] when no conversion truncates, and the
    voxel the assembler then stores. *)
Definition moved (cx cy cz : Z) (l : VmaxVoxel) : VmaxVoxel :=
  VmaxVoxel_ctor (cx * 8 + v_x l) (cy * 8 + v_y l) (cz * 8 + v_z l)
                 (v_material l) (v_palette l) (v_chunkID l) (v_minMorton l).

Definition stored_of (cx cy cz : Z) (snapshot : Snapshot) (l : VmaxVoxel)
  : VmaxVoxel :=
  mkVmaxVoxel (cx * 8 + v_x l) (cy * 8 + v_y l) (cz * 8 + v_z l)
              (v_material l) (v_palette l)
              (s_id_c snapshot) (s_st_min3 snapshot).

(** A snapshot on which the reads and the [int] sums of the decoder are
    defined: a stream of at least one byte, and a base offset that is
    not negative and, with the number of pairs of the stream added,
    still fits an [int]. *)
Definition snapshot_defined (snapshot : Snapshot) : Prop :=
  decodable (s_ds snapshot)
  /\ 0 <= s_st_min3 snapshot
  /\ s_st_min3 snapshot + Z.of_nat (length (s_ds snapshot)) / 2 <= INT_MAX.

(** The statement that the assembler stores chunk coordinate times 32
    plus the local coordinate, for one snapshot assembled into a fresh
    model. *)
Definition stores_chunk_times_32 (snapshot : Snapshot) : Prop :=
  forall (stored locals : list VmaxVoxel) (l : VmaxVoxel),
    outcome_map allVoxels
      (convertVmaxToBella_snapshots [snapshot] (VmaxModel_new "contents1.vmaxb"))
    = Returned stored ->
    decodeVoxels (s_ds snapshot) (s_st_min3 snapshot) (s_id_c snapshot)
    = Returned locals ->
    l ∈ locals ->
    exists w cx cy cz,
      decodeMorton3DOptimized (s_id_c snapshot) = (cx, cy, cz)
      /\ w ∈ stored
      /\ v_x w = cx * 32 + v_x l
      /\ v_y w = cy * 32 + v_y l
      /\ v_z w = cz * 32 + v_z l.

(** ** Palette loader *)

(** A decoded image: positive dimensions and four bytes per pixel. *)
Definition image_wf (img : StbImage) : Prop :=
  0 < img_width img /\ 0 < img_height img
  /\ Z.of_nat (length (img_data img)) = img_width img * img_height img * 4.

(** Pixel [i] of the first row, and the pixels [start .. start+count-1]. *)
Definition pixel (data : list Z) (i : nat) : VmaxRGBA :=
  mkVmaxRGBA (nth (4 * i) data 0) (nth (4 * i + 1) data 0)
             (nth (4 * i + 2) data 0) (nth (4 * i + 3) data 0).

Definition pixels (data : list Z) (start count : nat) : list VmaxRGBA :=
  pixel data <$> seq start count.

(** The statement that the loader returns a table of 256 entries. *)
Definition palette_has_256_entries (img : StbImage) : Prop :=
  exists diagnostics palette,
    read256x1PaletteFromPNG (Some img) = (diagnostics, Returned palette)
    /\ length palette = 256%nat.

(** ** File queue *)

(** The queues that any sequence of [push], [pop], [probe], [remove]
    and [clear] builds from the empty queue. *)
Inductive reachable : FileQueue -> Prop :=
| reach_new : reachable FQ.new
| reach_push q path : reachable q -> reachable (FQ.push q path).2
| reach_pop q : reachable q -> reachable (FQ.pop q).2
| reach_probe q : reachable q -> reachable (FQ.probe q).2
| reach_remove q path : reachable q -> reachable (FQ.remove q path).2
| reach_clear q : reachable q -> reachable (FQ.clear q).

(** The statement that two pushes of one path make the queue one longer. *)
Definition push_twice_grows_by_one (q : FileQueue) (path : string) : Prop :=
  FQ.size (FQ.push (FQ.push q path).2 path).2 = S (FQ.size q).

(** The representation invariant behind the agreement of the two
    containers: no path occurs twice in the sequence, and the keys of
    the map are the elements of the sequence. *)
Definition queue_inv (q : FileQueue) : Prop :=
  NoDup (pathVector q)
  /\ dom (pathMap q) = (list_to_set (pathVector q) : gset string).

(** * Part I, continued: further functions of the three files *)

(** ** Model queries ([oomer_voxel_vmax.h], lines 273-296) *)

(** [VmaxModel::getTotalVoxelCount]: the sizes of the buckets of colours
    1..255 of every material, added up. *)
Definition getTotalVoxelCount (model : VmaxModel) : nat :=
  foldl (fun count m =>
           foldl (fun count c =>
                    (count + length (bucket (voxels model) m c))%nat)
                 count (seq 1 255))
        0%nat (seq 0 8).

(** [VmaxModel::getUsedMaterialsAndColors]: a
    [std::map<int, std::set<int>>], given as its entries in iteration
    order.  The loops visit materials and colours in increasing order,
    so an insertion into the set, and the creation of the entry of a
    material by its first insertion, both append. *)
Definition getUsedMaterialsAndColors (model : VmaxModel)
  : list (Z * list Z) :=
  foldl (fun result material =>
           let colors :=
             foldl (fun colors color =>
                      match bucket (voxels model) material color with
                      | [] => colors
                      | _ :: _ => colors ++ [Z.of_nat color]
                      end)
                   [] (seq 1 255) in
           match colors with
           | [] => result
           | _ :: _ => result ++ [(Z.of_nat material, colors)]
           end)
        [] (seq 0 8).

(** ** Composer ([addModelToScene], [vmaxtui.cpp] lines 595-698)

    The part of [addModelToScene] that works on integers: one instancer
    per used (material, colour), the palette entry [vmaxPalette[color-1]]
    it reads, and one instance translation per voxel of the bucket.  The
    parameters of the material node are floating point and are left out.
    [vmaxPalette] is a [std::vector] indexed without a check. *)
Record Instancer : Type := mkInstancer {
  inst_material : Z;
  inst_color : Z;
  inst_rgba : VmaxRGBA;
  inst_instances : list (Z * Z * Z)
}.

Fixpoint instancers_of_colors (vmaxModel : VmaxModel)
    (vmaxPalette : list VmaxRGBA) (material : Z) (colorID : list Z)
  : outcome (list Instancer) :=
  match colorID with
  | [] => Returned []
  | color :: rest =>
    match vmaxPalette !! Z.to_nat (color - 1) with
    | None => OutOfBounds (color - 1)
    | Some rgba =>
      let voxelsOfType := getVoxels vmaxModel material color in
      let xformsArray := instance_translation <$> voxelsOfType in
      match instancers_of_colors vmaxModel vmaxPalette material rest with
      | Returned more =>
        Returned (mkInstancer material color rgba xformsArray :: more)
      | OutOfBounds i => OutOfBounds i
      | SignedOverflow => SignedOverflow
      | OutOfFuel => OutOfFuel
      end
    end
  end.

Fixpoint instancers_of_used (vmaxModel : VmaxModel)
    (vmaxPalette : list VmaxRGBA) (used : list (Z * list Z))
  : outcome (list Instancer) :=
  match used with
  | [] => Returned []
  | (material, colorID) :: rest =>
    match instancers_of_colors vmaxModel vmaxPalette material colorID with
    | Returned first =>
      match instancers_of_used vmaxModel vmaxPalette rest with
      | Returned more => Returned (first ++ more)
      | OutOfBounds i => OutOfBounds i
      | SignedOverflow => SignedOverflow
      | OutOfFuel => OutOfFuel
      end
    | OutOfBounds i => OutOfBounds i
    | SignedOverflow => SignedOverflow
    | OutOfFuel => OutOfFuel
    end
  end.

Definition addModelToScene_instancers (vmaxModel : VmaxModel)
    (vmaxPalette : list VmaxRGBA) : outcome (list Instancer) :=
  instancers_of_used vmaxModel vmaxPalette
                     (getUsedMaterialsAndColors vmaxModel).

(** ** One model from palette to instancers

    The body of the first model loop of [convertVmaxToBella]
    ([vmaxtui.cpp], lines 793-850) followed by the call of
    [addModelToScene] for the same model (line 857): the palette is
    read first, the snapshots are assembled next, and the composer gets
    both.  Nothing between the two looks at what the loader returned:
    the test [vmaxPalettes.empty()] of line 805 is on the vector of
    palettes, which holds an entry by then. *)
Definition convertVmaxToBella_model (loaded : option StbImage)
    (snapshots : list Snapshot) (vmaxContentName : string)
  : outcome (list Instancer) :=
  match (read256x1PaletteFromPNG loaded).2 with
  | Returned vmaxPalette =>
    match convertVmaxToBella_snapshots snapshots
                                       (VmaxModel_new vmaxContentName) with
    | Returned currentVmaxModel =>
      addModelToScene_instancers currentVmaxModel vmaxPalette
    | OutOfBounds i => OutOfBounds i
    | SignedOverflow => SignedOverflow
    | OutOfFuel => OutOfFuel
    end
  | OutOfBounds i => OutOfBounds i
  | SignedOverflow => SignedOverflow
  | OutOfFuel => OutOfFuel
  end.

(** ** Property lists ([oomer_voxel_vmax.h], lines 418-425)

    libplist is outside the repository: its node handle is a type
    parameter, a null handle is [None], and [plist_dict_get_item] is
    the function it is. *)
Section Plist.

Variable plist_node : Type.
Variable plist_dict_get_item : plist_node -> string -> option plist_node.

Fixpoint getNestedPlistNode (current : option plist_node) (path : list string)
  : option plist_node :=
  match path with
  | [] => current
  | key :: rest =>
    match current with
    | None => None
    | Some node => getNestedPlistNode (plist_dict_get_item node key) rest
    end
  end.

End Plist.

(** ** Decompression loop of [readPlist] ([oomer_voxel_vmax.h],
    lines 558-628)

    [lzfse_decode_buffer] is outside the repository; on the bytes of one
    file it is a function of the size of the output buffer it is handed.
    Whether [outBuffer.resize] gets the memory it asks for is not the
    program's to say either: [vector_grows size] tells whether a resize
    that enlarges the buffer to [size] bytes succeeds.  When it does
    not, [resize] throws ([std::bad_alloc] or [std::length_error]);
    nothing in [readPlist] catches, and the exception leaves the
    function.  A resize to the size the buffer has, or to a smaller one,
    allocates nothing and cannot throw.  The sizes are [size_t].
    Opening and reading the file and the scratch buffer of lzfse are
    taken as done. *)
Inductive LoopExit : Type :=
| Break (decodedSize : Z)               (* line 587 *)
| Throw (outAllocatedSize : Z).         (* line 584: [resize] throws *)

Inductive Decompressed : Type :=
| FailedToDecompress                    (* lines 591-594: returns nullptr *)
| DecodedBytes (parsedLength : Z)       (* line 628: the length handed to
                                           [plist_from_memory] *)
| ResizeThrows (outAllocatedSize : Z).  (* lines 561 and 584 *)

Section Decompress.

Variable lzfse_decode_buffer : Z -> Z.
Variable vector_grows : Z -> bool.

(** [outBuffer.resize(newSize)] on a buffer of [oldSize] bytes. *)
Definition resize_succeeds (oldSize newSize : Z) : bool :=
  (newSize <=? oldSize) || vector_grows newSize.

Fixpoint readPlist_loop (fuel : nat) (outAllocatedSize : Z)
  : outcome LoopExit :=
  match fuel with
  | O => OutOfFuel
  | S fuel =>
    let decodedSize := lzfse_decode_buffer outAllocatedSize in
    if (decodedSize =? 0) || (decodedSize =? outAllocatedSize) then
      let doubled := u64 (outAllocatedSize * 2) in
      if resize_succeeds outAllocatedSize doubled
      then readPlist_loop fuel doubled
      else Returned (Throw doubled)
    else Returned (Break decodedSize)
  end.

(** The branch [decompress] of [readPlist] from the first resize of the
    empty [outBuffer] (line 561) to the call of [plist_from_memory],
    which gets [static_cast<uint32_t>(decodedSize)] as the length. *)
Definition readPlist_decompress (fuel : nat) (rawFileSize : Z)
  : outcome Decompressed :=
  let outAllocatedSize := u64 (rawFileSize * 8) in
  if resize_succeeds 0 outAllocatedSize then
    match readPlist_loop fuel outAllocatedSize with
    | Returned (Break decodedSize) =>
      if decodedSize =? 0 then Returned FailedToDecompress
      else Returned (DecodedBytes (u32 decodedSize))
    | Returned (Throw size) => Returned (ResizeThrows size)
    | OutOfBounds i => OutOfBounds i
    | SignedOverflow => SignedOverflow
    | OutOfFuel => OutOfFuel
    end
  else Returned (ResizeThrows outAllocatedSize).

End Decompress.

(** ** Materials ([oomer_voxel_vmax.h], lines 216-225 and 299-372)

    A [double] is carried as its IEEE-754 bit pattern: the code stores
    and copies these values and does no arithmetic on them.  The
    pattern of [0.0] is 0. *)
Definition double : Type := Z.

Record VmaxMaterial : Type := mkVmaxMaterial {
  materialName : string;
  transmission : double;
  roughness : double;
  metalness : double;
  emission : double;
  enableShadows : bool;
  dielectric : bool;
  volumetric : bool
}.

(** What libplist hands over for one dictionary of the [materials]
    array.  [node_mi] is [None] when the key [mi] is missing, else the
    C string that [plist_get_string_val] returns, if any; each of the
    others is the value that the getter stores in its out-parameter, if
    the key is there and the getter stores one. *)
Record MaterialNode : Type := mkMaterialNode {
  node_mi : option (option string);
  node_tc : option double;
  node_sic : option double;
  node_rc : option double;
  node_mc : option double;
  node_sh : option bool
}.

Definition material_of_node (materialNode : MaterialNode) : VmaxMaterial :=
  let vmaxMaterialName :=
    match node_mi materialNode with
    | None => ""
    | Some None => "unnamed"
    | Some (Some rawName) => rawName
    end in
  let vmaxTransmission := default 0 (node_tc materialNode) in
  let vmaxEmission := default 0 (node_sic materialNode) in
  let vmaxRoughness := default 0 (node_rc materialNode) in
  let vmaxMetalness := default 0 (node_mc materialNode) in
  let vmaxEnableShadows := default true (node_sh materialNode) in
  mkVmaxMaterial vmaxMaterialName vmaxTransmission vmaxRoughness
                 vmaxMetalness vmaxEmission vmaxEnableShadows false false.

(** The array [std::array<VmaxMaterial, 8> vmaxMaterials] is not
    initialised: an element is [None] until the loop assigns it.  An
    item of the plist array that is no dictionary is [None] in [nodes]
    and is skipped. *)
Fixpoint getVmaxMaterials_loop (nodes : list (option MaterialNode)) (i : Z)
    (vmaxMaterials : list (option VmaxMaterial))
  : outcome (list (option VmaxMaterial)) :=
  match nodes with
  | [] => Returned vmaxMaterials
  | materialNode :: rest =>
    match materialNode with
    | Some dict =>
      if i <? 8 then
        getVmaxMaterials_loop rest (i + 1)
          (<[Z.to_nat i := Some (material_of_node dict)]> vmaxMaterials)
      else OutOfBounds i
    | None => getVmaxMaterials_loop rest (i + 1) vmaxMaterials
    end
  end.

(** [materialsNode] is [None] when the key [materials] is missing or is
    no array. *)
Definition getVmaxMaterials (materialsNode : option (list (option MaterialNode)))
  : outcome (list (option VmaxMaterial)) :=
  match materialsNode with
  | Some nodes => getVmaxMaterials_loop nodes 0 (replicate 8 None)
  | None => Returned (replicate 8 None)
  end.

(** ** Models by data file ([oomer_voxel_vmax.h], lines 647-664 and
    807-815)

    [models] is the [std::map] of the parser, given by its entries in
    the order of iteration (ascending id). *)
Record JsonModelInfo : Type := mkJsonModelInfo {
  jm_id : string;
  jm_parentId : string;
  jm_name : string;
  jm_dataFile : string;
  jm_paletteFile : string;
  jm_historyFile : string;
  jm_position : list double;
  jm_rotation : list double;
  jm_scale : list double;
  jm_extentCenter : list double;
  jm_extentMin : list double;
  jm_extentMax : list double
}.

Definition getModelContentVMaxbMap (models : list (string * JsonModelInfo))
  : gmap string (list JsonModelInfo) :=
  foldl (fun fileMap entry =>
           let model := entry.2 in
           <[jm_dataFile model :=
               default [] (fileMap !! jm_dataFile model) ++ [model]]> fileMap)
        ∅ models.

(** * Part II, continued: further specification-side definitions *)

(** A snapshot that stays inside its chunk: a chunk id of the 8x8x8
    grid, a base offset and a stream of bytes whose pairs do not run
    past the last cell of the 32x32x32 chunk.  The stream may be empty:
    that it is not is a condition of its own where it is needed. *)
Definition snapshot_in_grid (snapshot : Snapshot) : Prop :=
  0 <= s_id_c snapshot < 512
  /\ 0 <= s_st_min3 snapshot < 32768
  /\ s_st_min3 snapshot + Z.of_nat (length (s_ds snapshot)) / 2 <= 32768
  /\ Forall (fun byte => 0 <= byte < 256) (s_ds snapshot).

Definition in_grid (t : Z * Z * Z) : Prop :=
  (0 <= t.1.1 <= 255 /\ 0 <= t.1.2 <= 255) /\ 0 <= t.2 <= 255.

(** The voxels [addVoxel] accepts. *)
Definition accepted (voxel : VmaxVoxel) : Prop :=
  in_table (v_material voxel) (v_palette voxel) = true.

(** The number of instances a list of instancers carries. *)
Definition total_instances (instancers : list Instancer) : nat :=
  sum_list ((fun i => length (inst_instances i)) <$> instancers).

(** The colours of one material that have voxels, and the entry of that
    material in the map of used materials and colours. *)
Definition used_colors (model : VmaxModel) (m : nat) : list nat :=
  filter (fun c => bucket (voxels model) m c <> []) (seq 1 255).

Definition used_entry (model : VmaxModel) (m : nat) : option (Z * list Z) :=
  match used_colors model m with
  | [] => None
  | _ :: _ => Some (Z.of_nat m, Z.of_nat <$> used_colors model m)
  end.

(** What the composer makes of one (material, colour). *)
Definition instancer_of (model : VmaxModel) (palette : list VmaxRGBA)
    (instancer : Instancer) : Prop :=
  in_table (inst_material instancer) (inst_color instancer) = true
  /\ palette !! Z.to_nat (inst_color instancer - 1)
     = Some (inst_rgba instancer)
  /\ inst_instances instancer
     = instance_translation
       <$> getVoxels model (inst_material instancer) (inst_color instancer)
  /\ inst_instances instancer <> [].

(** The voxels held under the listed colours of a material, and under a
    list of (material, colours) entries. *)
Definition colors_total (model : VmaxModel) (m : Z) (colors : list Z) : nat :=
  sum_list ((fun c => length (getVoxels model m c)) <$> colors).

Definition used_total (model : VmaxModel) (used : list (Z * list Z)) : nat :=
  sum_list ((fun entry => colors_total model entry.1 entry.2) <$> used).

(** A (material, colour) the composer can handle: the palette has the
    entry it reads and the bucket is a non-empty one of the table. *)
Definition usable (model : VmaxModel) (palette : list VmaxRGBA)
    (m c : Z) : Prop :=
  is_Some (palette !! Z.to_nat (c - 1))
  /\ in_table m c = true /\ getVoxels model m c <> [].

(** The suffixes of the paths that the listener passes on to the render
    loop. *)
Definition watched_suffix (path : string) : bool :=
  endsWith path ".vmax" || endsWith path ".bsz" || endsWith path ".zip".

(** What holds of the two shared queues between any two callbacks. *)
Definition queues_ok (g : Queues) : Prop :=
  queue_inv (fileQueue g) /\ queue_inv (unfileQueue g)
  /\ Forall (fun p => watched_suffix p = true) (pathVector (fileQueue g))
  /\ Forall (fun p => endsWith p ".bsz" = true) (pathVector (unfileQueue g)).

(** A sequence of callbacks of the watcher thread, each with its
    directory, file name and action. *)
Definition handleFileAction_all (events : list (string * string * Action))
    (g : Queues) : Queues :=
  foldl (fun g event => handleFileAction false g event.1.1 event.1.2 event.2)
        g events.

(** What the two threads do to the state of watch mode, apart from the
    engine's own callbacks: a callback of the watcher, or one pass of
    the loop of [DL_main]. *)
Inductive Move : Type :=
| Event (dir filename : string) (action : Action)
| Pass.

Definition move (s : WatchState) (m : Move) : WatchState :=
  match m with
  | Event dir filename action => watcher_event dir filename action s
  | Pass => DL_main_iteration s
  end.

Definition run (moves : list Move) (s : WatchState) : WatchState :=
  foldl move s moves.

(** The models that use one data file, in the order of the map. *)
Definition models_of_file (file : string)
    (models : list (string * JsonModelInfo)) : list JsonModelInfo :=
  filter (fun model => jm_dataFile model = file) (models.*2).

(** What [lzfse_decode_buffer] does on data that decompresses to [n]
    bytes: it writes what fits and returns the number of bytes written. *)
Definition decodes_to (lzfse_decode_buffer : Z -> Z) (n : Z) : Prop :=
  forall size, 0 <= size -> lzfse_decode_buffer size = Z.min size n.

(** * Part III: properties *)

(** ** Integer conversions *)

(** A value that fits the target type is left alone by the conversion. *)
Lemma to_int_small (n : Z) : 0 <= n < 2147483648 -> to_int n = n.
Proof.
  intros Hn. unfold to_int, u32. rewrite Z.mod_small by lia.
  destruct (Z.ltb_spec n 2147483648); lia.
Qed.

Lemma to_int64_small (n : Z) : 0 <= n < 2147483648 -> to_int64 n = n.
Proof.
  intros Hn. unfold to_int64, u64. rewrite Z.mod_small by lia.
  destruct (Z.ltb_spec n 9223372036854775808); lia.
Qed.

Lemma u8_small (n : Z) : 0 <= n < 256 -> u8 n = n.
Proof. intros Hn. unfold u8. apply Z.mod_small. lia. Qed.

Lemma u16_small (n : Z) : 0 <= n < 65536 -> u16 n = n.
Proof. intros Hn. unfold u16. apply Z.mod_small. lia. Qed.

Lemma u32_small (n : Z) : 0 <= n < 4294967296 -> u32 n = n.
Proof. intros Hn. unfold u32. apply Z.mod_small. lia. Qed.

Lemma u64_small (n : Z) : 0 <= n < 18446744073709551616 -> u64 n = n.
Proof. intros Hn. unfold u64. apply Z.mod_small. lia. Qed.

Lemma u8_idem (n : Z) : u8 (u8 n) = u8 n.
Proof. unfold u8. apply Z.mod_mod. lia. Qed.

Create Rewrite HintDb unwrap.

#[local] Hint Rewrite u8_idem : unwrap.
#[local] Hint Rewrite u8_small u16_small u32_small u64_small
  to_int_small to_int64_small using lia : unwrap.

(** ** Morton codec *)

Lemma axis_elem (n : nat) (x : Z) : 0 <= x < Z.of_nat n -> In x (axis n).
Proof.
  intros Hx. unfold axis. apply list_elem_of_In, list_elem_of_fmap.
  exists (Z.to_nat x). split; [lia|].
  apply list_elem_of_In, in_seq. lia.
Qed.

Lemma triple_eqb_eq (a b : Z * Z * Z) : triple_eqb a b = true -> a = b.
Proof.
  destruct a as [[a1 a2] a3], b as [[b1 b2] b3]; simpl.
  rewrite !andb_true_iff, !Z.eqb_eq. intros [[-> ->] ->]. reflexivity.
Qed.

Lemma roundtrip_cube_32 : roundtrip_cube 32 = true.
Proof. vm_compute. reflexivity. Qed.

Lemma roundtrip_cube_sound (n : nat) (x y z : Z) :
  roundtrip_cube n = true ->
  0 <= x < Z.of_nat n -> 0 <= y < Z.of_nat n -> 0 <= z < Z.of_nat n ->
  decodeMorton3DOptimized (spec_encode3 x y z) = (x, y, z).
Proof.
  unfold roundtrip_cube. intros H Hx Hy Hz. apply triple_eqb_eq.
  rewrite forallb_forall in H. apply axis_elem, H in Hx.
  rewrite forallb_forall in Hx. apply axis_elem, Hx in Hy.
  rewrite forallb_forall in Hy. apply axis_elem, Hy in Hz.
  exact Hz.
Qed.

(** C5: for coordinates in [0,31] (hence also in [0,7]) decoding the
    interleaved Morton code returns the coordinates. *)
Theorem decode3_encode3 (x y z : Z) :
  0 <= x <= 31 -> 0 <= y <= 31 -> 0 <= z <= 31 ->
  decodeMorton3DOptimized (spec_encode3 x y z) = (x, y, z).
Proof.
  intros Hx Hy Hz.
  apply (roundtrip_cube_sound 32); [exact roundtrip_cube_32 | lia ..].
Qed.

Lemma decode3_encode3_witness :
  decodeMorton3DOptimized (spec_encode3 3 5 7) = (3, 5, 7).
Proof. apply (decode3_encode3 3 5 7); lia. Defined.

(** ** Chunk decoder *)

Example decodeVoxels_scenario3 :
  decodeVoxels [0x00; 0x00; 0x01; 0x05] 0 0
  = Returned [mkVmaxVoxel 1 0 0 1 5 0 0].
Proof. vm_compute. reflexivity. Qed.

Example decodeVoxels_odd :
  decodeVoxels [0x02; 0x07; 0x09] 0 3
  = Returned [mkVmaxVoxel 0 0 0 2 7 3 0].
Proof. vm_compute. reflexivity. Qed.

Example decodeVoxels_empty : decodeVoxels [] 0 0 = OutOfBounds 0.
Proof. vm_compute. reflexivity. Qed.

(** [compactBits] never produces more than eight bits: the fourth mask
    clears bits 8..15 and 24..31, so the last merge has nothing to move
    into bits 8..15. *)
Lemma compactBits_byte (n : Z) : u8 (compactBits n) = compactBits n.
Proof.
  unfold u8, compactBits.
  set (t := Z.lxor _ (Z.shiftr _ 8)). clearbody t.
  change 256 with (2 ^ 8). rewrite <- Z.land_ones by lia.
  apply Z.bits_inj'. intros k Hk.
  rewrite !Z.land_spec, Z.lxor_spec, Z.shiftr_spec, Z.land_spec by lia.
  rewrite Z.land_spec.
  destruct (Z.ltb_spec k 8) as [Hlt|Hge].
  - rewrite (Z.ones_spec_low 8 k) by lia. rewrite andb_true_r. reflexivity.
  - rewrite (Z.ones_spec_high 8 k) by lia. rewrite andb_false_r.
    destruct (Z.ltb_spec k 16) as [Hlt|Hge'].
    + assert (Hc : k = 8 \/ k = 9 \/ k = 10 \/ k = 11 \/ k = 12 \/ k = 13
                   \/ k = 14 \/ k = 15) by lia.
      repeat destruct Hc as [-> | Hc]; try subst k;
        cbn; rewrite !andb_false_r; reflexivity.
    + replace (Z.testbit 65535 k) with false; [symmetry; apply andb_false_r|].
      symmetry. change 65535 with (Z.ones 16). apply Z.ones_spec_high. lia.
Qed.

Lemma compactBits_range (n : Z) : 0 <= compactBits n < 256.
Proof.
  rewrite <- compactBits_byte. unfold u8. apply Z.mod_pos_bound. lia.
Qed.

Lemma lookup_app_middle {A : Type} (pre : list A) (x : A) (suf : list A) (i : nat) :
  length pre = i -> (pre ++ x :: suf) !! i = Some x.
Proof. intros <-. apply list_lookup_middle. reflexivity. Qed.

Section DecoderLoop.

Variables (b k : Z).

(** Loop invariant of [decodeVoxels]: after [j] pairs the accumulator
    holds the voxels of the consumed prefix, and the rest of the stream
    is decoded pair by pair. *)
Lemma decodeVoxels_loop_pairs :
  forall (fuel : nat) (suf pre : list Z) (j : Z) (acc : list VmaxVoxel),
    (length suf < fuel)%nat ->
    Z.of_nat (length pre) = 2 * j ->
    pre ++ suf <> [] ->
    Z.of_nat (length (pre ++ suf)) <= INT_MAX ->
    decodeVoxels_loop fuel (pre ++ suf) b k (2 * j) acc
    = Returned (acc ++ decode_pairs b k j suf).
Proof.
  induction fuel as [|fuel IH]; intros suf pre j acc Hfuel Hpre Hne Hmax;
    [lia|].
  cbn [decodeVoxels_loop]. unfold INT_MAX in *.
  assert (Hlen : 1 <= Z.of_nat (length (pre ++ suf))).
  { destruct (pre ++ suf); [congruence | cbn [length]; lia]. }
  assert (Hu : u64 (Z.of_nat (length (pre ++ suf)) - 1)
               = Z.of_nat (length (pre ++ suf)) - 1).
  { unfold u64. apply Z.mod_small. lia. }
  rewrite Hu. rewrite length_app in *.
  assert (Hi : u64 (2 * j) = 2 * j) by (apply u64_small; lia).
  rewrite Hi.
  destruct suf as [|m [|c rest]]; cbn [length] in *.
  - destruct (Z.ltb_spec (2 * j) (Z.of_nat (length pre + 0) - 1)); [lia|].
    cbn. rewrite app_nil_r. reflexivity.
  - destruct (Z.ltb_spec (2 * j) (Z.of_nat (length pre + 1) - 1)); [lia|].
    cbn. rewrite app_nil_r. reflexivity.
  - destruct (Z.ltb_spec (2 * j) (Z.of_nat (length pre + S (S (length rest))) - 1));
      [|lia].
    rewrite (lookup_app_middle pre m (c :: rest)) by lia.
    replace (pre ++ m :: c :: rest) with ((pre ++ [m]) ++ c :: rest)
      by (rewrite <- app_assoc; reflexivity).
    rewrite (lookup_app_middle (pre ++ [m]) c rest)
      by (rewrite length_app; cbn [length]; lia).
    replace (Z.quot (2 * j) 2) with j by (rewrite Z.mul_comm, Z.quot_mul; lia).
    unfold decodeMorton3DOptimized. rewrite !compactBits_byte.
    destruct (Z.ltb_spec (2147483647 - 2) (2 * j)); [lia|].
    replace ((pre ++ [m]) ++ c :: rest) with ((pre ++ [m; c]) ++ rest)
      by (rewrite <- !app_assoc; reflexivity).
    replace (2 * j + 2) with (2 * (j + 1)) by lia.
    rewrite IH.
    + cbn [decode_pairs]. unfold decodeMorton3DOptimized.
      destruct (c =? 0); cbn [app]; rewrite <- ?app_assoc; reflexivity.
    + lia.
    + rewrite length_app. cbn [length]. lia.
    + destruct pre; discriminate.
    + rewrite !length_app. cbn [length]. lia.
Qed.

(** On every stream that holds at least one byte the decoder returns:
    the fuel is never used up and no index leaves the stream. *)
Lemma decodeVoxels_decodable (ds : list Z) :
  decodable ds -> decodeVoxels ds b k = Returned (decode_pairs b k 0 ds).
Proof.
  intros [Hne Hmax]. unfold decodeVoxels.
  apply (decodeVoxels_loop_pairs (S (length ds)) ds [] 0 []);
    [lia | reflexivity | exact Hne | exact Hmax].
Qed.

End DecoderLoop.

Lemma list_pair_ind {A : Type} (P : list A -> Prop) :
  P [] -> (forall x, P [x]) -> (forall x y l, P l -> P (x :: y :: l)) ->
  forall l, P l.
Proof.
  intros Hnil Hone Hstep.
  assert (H : forall l, P l /\ forall x, P (x :: l)).
  { induction l as [|y l [IH1 IH2]]; split; auto. }
  intros l. apply H.
Qed.

(** With a base offset that fits 16 bits, the conversions of the code
    do nothing and the pairs are decoded as the specification words it. *)
Lemma decode_pairs_spec (b k : Z) (ds : list Z) :
  0 <= b < 65536 ->
  forall i, 0 <= i -> 2 * i + Z.of_nat (length ds) <= INT_MAX ->
  decode_pairs b k i ds = spec_decode_chunk b k i ds.
Proof.
  intros Hb. unfold INT_MAX.
  induction ds as [| x | m c rest IH] using list_pair_ind; intros i Hi Hlen;
    [reflexivity | reflexivity |].
  cbn [decode_pairs spec_decode_chunk length] in *.
  autorewrite with unwrap. rewrite IH by lia. reflexivity.
Qed.

Lemma decodeVoxels_nonempty (ds : list Z) (b k : Z) :
  decodable ds -> 0 <= b < 65536 ->
  decodeVoxels ds b k = Returned (spec_decode_chunk b k 0 ds).
Proof.
  intros Hds Hb. rewrite decodeVoxels_decodable by exact Hds.
  rewrite decode_pairs_spec; [reflexivity | exact Hb | lia |].
  destruct Hds as [_ Hmax]. lia.
Qed.

(** C3: what the decoder does on a stream of fewer than 2^31 bytes
    with a base offset that fits 16 bits.  A stream with at least one
    byte is decoded pair by pair as specified; on the empty stream,
    where nothing is to be emitted, the first iteration reads
    [dsData[0]] instead. *)
Theorem chunk_decoder_pairs (ds : list Z) (b k : Z) :
  0 <= b < 65536 -> Z.of_nat (length ds) <= INT_MAX ->
  decodeVoxels ds b k
  = match ds with
    | [] => OutOfBounds 0
    | _ :: _ => Returned (spec_decode_chunk b k 0 ds)
    end.
Proof.
  intros Hb Hmax. destruct ds as [|m rest]; [reflexivity|].
  apply decodeVoxels_nonempty; [split; [discriminate | exact Hmax] | exact Hb].
Qed.

Lemma chunk_decoder_pairs_witness : decodeVoxels [] 0 0 = OutOfBounds 0.
Proof.
  apply (chunk_decoder_pairs [] 0 0); [lia | unfold INT_MAX; cbn; lia].
Defined.

(** C4: on the empty stream the loop bound [dsData.size() - 1] wraps to
    2^64-1, the loop is entered and its first read is out of bounds,
    whatever the offset and the chunk id. *)
Theorem empty_stream_reads_out_of_bounds (b k : Z) :
  u64 (Z.of_nat (length (@nil Z)) - 1) = 18446744073709551615
  /\ decodeVoxels [] b k = OutOfBounds 0.
Proof. split; reflexivity. Qed.

(** ** Model assembler *)

Example assemble_scenario2 :
  outcome_map allVoxels
    (convertVmaxToBella_snapshots [mkSnapshot 0 4 0 [0x00; 0x02]]
                                  (VmaxModel_new "contents1.vmaxb"))
  = Returned [mkVmaxVoxel 0 0 0 0 2 0 0].
Proof. vm_compute. reflexivity. Qed.

Example assemble_chunk1 :
  outcome_map (fun model => (allVoxels model,
                             instance_translation <$> allVoxels model))
    (convertVmaxToBella_snapshots [mkSnapshot 1 4 0 [0x00; 0x02]]
                                  (VmaxModel_new "contents1.vmaxb"))
  = Returned ([mkVmaxVoxel 8 0 0 0 2 1 0], [(32, 0, 0)]).
Proof. vm_compute. reflexivity. Qed.

Lemma table_wf_new (name : string) : table_wf (voxels (VmaxModel_new name)).
Proof.
  unfold VmaxModel_new. cbn [voxels]. split; [apply length_replicate|].
  apply Forall_replicate, length_replicate.
Qed.

Lemma bucket_alter (t : list (list (list VmaxVoxel)))
    (f : list VmaxVoxel -> list VmaxVoxel) (i j i' j' : nat) :
  table_wf t -> (i < 8)%nat -> (j < 256)%nat ->
  bucket (alter (alter f j) i t) i' j'
  = if decide (i = i' /\ j = j') then f (bucket t i j) else bucket t i' j'.
Proof.
  intros [Hlen Hrows] Hi Hj. unfold bucket. rewrite list_lookup_alter.
  destruct (decide (i = i')) as [<-|Hne].
  - destruct (lookup_lt_is_Some_2 t i) as [row Hrow]; [lia|].
    rewrite Hrow. cbn. rewrite list_lookup_alter.
    pose proof (Forall_lookup_1 _ _ _ _ Hrows Hrow) as Hrl. cbn in Hrl.
    destruct (lookup_lt_is_Some_2 row j) as [b Hb]; [lia|].
    destruct (decide (j = j')) as [<-|Hnej].
    + rewrite Hb. cbn. rewrite decide_True by done. reflexivity.
    + rewrite decide_False by (intros [_ ?]; done). reflexivity.
  - rewrite decide_False by (intros [? _]; done). reflexivity.
Qed.

Lemma table_wf_alter (t : list (list (list VmaxVoxel)))
    (f : list VmaxVoxel -> list VmaxVoxel) (i j : nat) :
  table_wf t -> table_wf (alter (alter f j) i t).
Proof.
  intros [Hlen Hrows]. split.
  - rewrite length_alter. exact Hlen.
  - apply Forall_alter; [exact Hrows|].
    intros row _ Hrow. rewrite length_alter. exact Hrow.
Qed.

Lemma in_table_range (m c : Z) :
  in_table m c = true <-> 0 <= m < 8 /\ 0 < c < 256.
Proof. unfold in_table. rewrite !andb_true_iff. lia. Qed.

Lemma table_wf_addVoxel (model : VmaxModel) (x y z m c ch cm : Z) :
  table_wf (voxels model) -> table_wf (voxels (addVoxel model x y z m c ch cm)).
Proof.
  intros Hwf. unfold addVoxel. destruct (in_table m c); [|exact Hwf].
  cbn. apply table_wf_alter, Hwf.
Qed.

(** [addVoxel] appends to the bucket of its material and colour and
    leaves every other bucket as it was. *)
Lemma getVoxels_addVoxel (model : VmaxModel) (x y z m c ch cm m' c' : Z) :
  table_wf (voxels model) -> in_table m' c' = true ->
  getVoxels (addVoxel model x y z m c ch cm) m' c'
  = getVoxels model m' c'
    ++ (if decide (m = m' /\ c = c')
        then [VmaxVoxel_ctor x y z m c ch cm] else []).
Proof.
  intros Hwf Hin'. unfold getVoxels, addVoxel. rewrite Hin'.
  destruct (in_table m c) eqn:Hin.
  - apply in_table_range in Hin, Hin'. cbn [voxels].
    fold (bucket (voxels model) (Z.to_nat m') (Z.to_nat c')).
    match goal with |- default [] ?o = _ =>
      change (default [] o) with
        (bucket (alter (alter (fun b => b ++ [VmaxVoxel_ctor x y z m c ch cm])
                              (Z.to_nat c)) (Z.to_nat m) (voxels model))
                (Z.to_nat m') (Z.to_nat c')) end.
    rewrite bucket_alter by (try exact Hwf; lia).
    destruct (decide (m = m' /\ c = c')) as [[<- <-]|Hne].
    + rewrite decide_True by done. reflexivity.
    + rewrite decide_False by (intros [? ?]; apply Hne; split; lia).
      rewrite app_nil_r. reflexivity.
  - rewrite decide_False; [rewrite app_nil_r; reflexivity|].
    intros [-> ->]. congruence.
Qed.

Lemma getVoxels_addSnapshotVoxels (chunkInfo : VmaxChunkInfo)
    (xvoxels : list VmaxVoxel) (model : VmaxModel) (m c : Z) :
  table_wf (voxels model) -> in_table m c = true ->
  table_wf (voxels (addSnapshotVoxels chunkInfo model xvoxels))
  /\ getVoxels (addSnapshotVoxels chunkInfo model xvoxels) m c
     = getVoxels model m c
       ++ (emplaced chunkInfo <$> filter (in_bucket m c) xvoxels).
Proof.
  intros Hwf Hin. revert model Hwf.
  induction xvoxels as [|v xs IH]; intros model Hwf.
  - cbn. rewrite app_nil_r. auto.
  - cbn [addSnapshotVoxels foldl].
    set (model' := addVoxel _ _ _ _ _ _ _ _).
    assert (Hwf' : table_wf (voxels model')) by (apply table_wf_addVoxel, Hwf).
    destruct (IH model' Hwf') as [Hwf'' Heq]. split; [exact Hwf''|].
    unfold addSnapshotVoxels in Heq. rewrite Heq. subst model'.
    rewrite getVoxels_addVoxel by assumption.
    rewrite <- app_assoc. f_equal. rewrite filter_cons. unfold in_bucket at 2.
    destruct (decide (v_material v = m /\ v_palette v = c)) as [Hv|Hv].
    + rewrite fmap_cons. reflexivity.
    + reflexivity.
Qed.

Lemma table_wf_addSnapshotVoxels (chunkInfo : VmaxChunkInfo)
    (xvoxels : list VmaxVoxel) (model : VmaxModel) :
  table_wf (voxels model) ->
  table_wf (voxels (addSnapshotVoxels chunkInfo model xvoxels)).
Proof.
  revert model. induction xvoxels as [|v xs IH]; intros model Hwf; [exact Hwf|].
  apply IH, table_wf_addVoxel, Hwf.
Qed.

Lemma vmaxVoxelInfo_decodable (ds : list Z) (chunkID minMorton : Z) :
  decodable ds -> exists xvoxels, vmaxVoxelInfo ds chunkID minMorton = Returned xvoxels.
Proof.
  intros Hds. unfold vmaxVoxelInfo. rewrite decodeVoxels_decodable by exact Hds.
  destruct (decodeMorton3DOptimized (u32 chunkID)) as [[mx my] mz].
  eexists. reflexivity.
Qed.

(** The assembler only ever appends: after the loop every bucket holds
    what it held before, followed by the contribution of every snapshot
    in array order. *)
Lemma assembler_accumulates (snapshots : list Snapshot) :
  Forall (fun s => decodable (s_ds s)) snapshots ->
  forall model, table_wf (voxels model) ->
  exists model',
    convertVmaxToBella_snapshots snapshots model = Returned model'
    /\ table_wf (voxels model')
    /\ forall m c, in_table m c = true ->
         getVoxels model' m c
         = getVoxels model m c ++ concat (snapshot_bucket m c <$> snapshots).
Proof.
  induction 1 as [|s rest Hs _ IH]; intros model Hwf.
  - exists model. cbn. split; [reflexivity|]. split; [exact Hwf|].
    intros m c _. rewrite app_nil_r. reflexivity.
  - destruct (vmaxVoxelInfo_decodable (s_ds s) (u64 (ci_id (vmaxChunkInfo s)))
                (ci_mortoncode (vmaxChunkInfo s)) Hs) as [xs Hxs].
    cbn [convertVmaxToBella_snapshots]. rewrite Hxs.
    destruct (IH (addSnapshotVoxels (vmaxChunkInfo s) model xs)) as (model' & Hrun & Hwf' & Hb).
    { apply table_wf_addSnapshotVoxels, Hwf. }
    exists model'. split; [exact Hrun|]. split; [exact Hwf'|].
    intros m c Hin. rewrite (Hb m c Hin).
    destruct (getVoxels_addSnapshotVoxels (vmaxChunkInfo s) xs model m c Hwf Hin)
      as [_ ->].
    rewrite fmap_cons. cbn [concat]. unfold snapshot_bucket at 2.
    rewrite Hxs, <- app_assoc. reflexivity.
Qed.

(** C1: two snapshots of chunk 0; the second stream is shorter than the
    first.  The model keeps all three voxels, although the second
    snapshot, the latest one of chunk 0, decodes to the last of them
    only. *)
Theorem later_snapshot_does_not_replace :
  outcome_map (fun model => filter (fun v => v_chunkID v = 0) (allVoxels model))
    (convertVmaxToBella_snapshots
       [mkSnapshot 0 4 0 [0; 1; 0; 2]; mkSnapshot 0 4 0 [0; 3]]
       (VmaxModel_new "contents1.vmaxb"))
  = Returned [mkVmaxVoxel 0 0 0 0 1 0 0;
              mkVmaxVoxel 1 0 0 0 2 0 0;
              mkVmaxVoxel 0 0 0 0 3 0 0]
  /\ vmaxVoxelInfo [0; 3] 0 0 = Returned [mkVmaxVoxel 0 0 0 0 3 0 0].
Proof. split; vm_compute; reflexivity. Qed.

(** ** Stored positions *)

Lemma chunk_coords_check_ok : chunk_coords_check = true.
Proof. vm_compute. reflexivity. Qed.

Lemma chunk_coords_small (c cx cy cz : Z) :
  0 <= c < 512 -> decodeMorton3DOptimized c = (cx, cy, cz) ->
  0 <= cx <= 7 /\ 0 <= cy <= 7 /\ 0 <= cz <= 7.
Proof.
  intros Hc Hd. pose proof chunk_coords_check_ok as H.
  unfold chunk_coords_check in H. rewrite forallb_forall in H.
  specialize (H c (axis_elem 512 c Hc)). rewrite Hd in H.
  rewrite !andb_true_iff, !Z.leb_le in H.
  unfold decodeMorton3DOptimized in Hd. inversion Hd; subst.
  pose proof (compactBits_range c).
  pose proof (compactBits_range (Z.shiftr c 1)).
  pose proof (compactBits_range (Z.shiftr c 2)). lia.
Qed.

Lemma getVoxels_new (name : string) (m c : Z) :
  getVoxels (VmaxModel_new name) m c = [].
Proof.
  unfold getVoxels, VmaxModel_new. cbn [voxels].
  destruct (in_table m c); [|reflexivity].
  destruct (replicate 8 (replicate 256 []) !! Z.to_nat m) as [row|] eqn:E;
    [|reflexivity].
  apply lookup_replicate_1 in E as [-> _]. cbn [mbind option_bind].
  destruct (replicate 256 [] !! Z.to_nat c) as [b|] eqn:E2; [|reflexivity].
  apply lookup_replicate_1 in E2 as [-> _]. reflexivity.
Qed.

Lemma filter_in_bucket_fmap (f : VmaxVoxel -> VmaxVoxel)
    (ls : list VmaxVoxel) (m c : Z) :
  Forall (fun l => v_material (f l) = v_material l
                   /\ v_palette (f l) = v_palette l) ls ->
  filter (in_bucket m c) (f <$> ls) = f <$> filter (in_bucket m c) ls.
Proof.
  induction 1 as [|l ls [Hm Hp] _ IH]; [reflexivity|].
  rewrite fmap_cons, !filter_cons.
  destruct (decide (in_bucket m c (f l))) as [Hf|Hf];
    destruct (decide (in_bucket m c l)) as [Hl|Hl];
    unfold in_bucket in Hf, Hl; rewrite Hm, Hp in Hf; try (exfalso; tauto).
  - rewrite fmap_cons, IH. reflexivity.
  - exact IH.
Qed.

(** The composer adds 24 times the chunk coordinate to a position that
    already holds 8 times the chunk coordinate. *)
Lemma instance_translation_stored (snapshot : Snapshot) (cx cy cz : Z) (l : VmaxVoxel) :
  0 <= s_id_c snapshot < 512 ->
  decodeMorton3DOptimized (s_id_c snapshot) = (cx, cy, cz) ->
  instance_translation (stored_of cx cy cz snapshot l)
  = (cx * 32 + v_x l, cy * 32 + v_y l, cz * 32 + v_z l).
Proof.
  intros Hc Hd. destruct (chunk_coords_small _ _ _ _ Hc Hd) as (Hx & Hy & Hz).
  unfold instance_translation, stored_of. cbn [v_chunkID v_x v_y v_z].
  rewrite Hd. rewrite !to_int_small by lia. f_equal; [f_equal|]; lia.
Qed.

(** The statement of C2 at one snapshot of chunk 1, whose chunk
    coordinate is (1,0,0), holding one voxel at local (0,0,0): it does
    not hold, the model stores x = 8, not 32. *)
Lemma stores_chunk_times_32_counterexample :
  ~ stores_chunk_times_32 (mkSnapshot 1 4 0 [0x00; 0x02]).
Proof.
  intros H.
  destruct (H [mkVmaxVoxel 8 0 0 0 2 1 0] [mkVmaxVoxel 0 0 0 0 2 1 0]
              (mkVmaxVoxel 0 0 0 0 2 1 0))
    as (w & cx & cy & cz & Hd & Hw & Hx & _).
  - vm_compute. reflexivity.
  - vm_compute. reflexivity.
  - apply list_elem_of_singleton. reflexivity.
  - apply list_elem_of_singleton in Hw. subst w.
    vm_compute in Hd. inversion Hd; subst. discriminate Hx.
Qed.

(** C2: one snapshot of chunk 1, whose chunk coordinate is (1,0,0),
    holding one voxel at local (0,0,0) with material 0 and colour 2.
    The claim, and the description of the format at the head of
    [vmaxtui.cpp] ("world_x = chunk_x * 32 + local_x"), put the voxel at
    x = 32.  [vmaxVoxelInfo] computes its "model space" origin
    [model_256x256x256_x] as chunk coordinate times 8, and the model
    holds the voxel at x = 8; the composer adds chunk coordinate times
    24, and only the translation of the instance is 32. *)
Theorem chunk_one_voxel_is_stored_at_8 :
  decodeMorton3DOptimized 1 = (1, 0, 0)
  /\ decodeVoxels [0x00; 0x02] 0 1 = Returned [mkVmaxVoxel 0 0 0 0 2 1 0]
  /\ outcome_map allVoxels
       (convertVmaxToBella_snapshots [mkSnapshot 1 4 0 [0x00; 0x02]]
                                     (VmaxModel_new "contents1.vmaxb"))
     = Returned [mkVmaxVoxel 8 0 0 0 2 1 0]
  /\ instance_translation (mkVmaxVoxel 8 0 0 0 2 1 0) = (32, 0, 0).
Proof. vm_compute. repeat split; reflexivity. Qed.

Section StoredPositions.

Variable snapshot : Snapshot.
Hypothesis Hc : 0 <= s_id_c snapshot < 512.
Hypothesis Hb : 0 <= s_st_min3 snapshot < 32768.

Variables cx cy cz : Z.
Hypothesis Hd : decodeMorton3DOptimized (s_id_c snapshot) = (cx, cy, cz).

Lemma vmaxChunkInfo_fields :
  ci_id (vmaxChunkInfo snapshot) = s_id_c snapshot
  /\ ci_mortoncode (vmaxChunkInfo snapshot) = s_st_min3 snapshot.
Proof.
  unfold vmaxChunkInfo.
  destruct (decodeMorton3DOptimized (u32 (s_st_min3 snapshot))) as [[? ?] ?].
  cbn. split; [apply to_int64_small; lia | reflexivity].
Qed.

Lemma vmaxVoxelInfo_moved (locals : list VmaxVoxel) :
  decodeVoxels (s_ds snapshot) (s_st_min3 snapshot) (s_id_c snapshot)
  = Returned locals ->
  vmaxVoxelInfo (s_ds snapshot) (u64 (ci_id (vmaxChunkInfo snapshot)))
                (ci_mortoncode (vmaxChunkInfo snapshot))
  = Returned (moved cx cy cz <$> locals).
Proof.
  intros Hdec. destruct vmaxChunkInfo_fields as [-> ->].
  destruct (chunk_coords_small _ _ _ _ Hc Hd) as (Hx & Hy & Hz).
  unfold vmaxVoxelInfo. autorewrite with unwrap. rewrite Hdec, Hd.
  autorewrite with unwrap. reflexivity.
Qed.

Lemma emplaced_moved (l : VmaxVoxel) :
  local_voxel l ->
  emplaced (vmaxChunkInfo snapshot) (moved cx cy cz l)
  = stored_of cx cy cz snapshot l.
Proof.
  intros ((Hlx & Hly & Hlz) & Hlm & Hlp).
  destruct (chunk_coords_small _ _ _ _ Hc Hd) as (Hx & Hy & Hz).
  destruct vmaxChunkInfo_fields as [Hid Hmc].
  unfold emplaced, moved, stored_of, VmaxVoxel_ctor.
  cbn [v_x v_y v_z v_material v_palette]. rewrite Hid, Hmc.
  autorewrite with unwrap. reflexivity.
Qed.

End StoredPositions.

Lemma elem_of_concat_of {A : Type} (x : A) (l : list A) (ls : list (list A)) :
  x ∈ l -> l ∈ ls -> x ∈ concat ls.
Proof.
  intros Hx Hl. induction ls as [|l' ls IH]; [inversion Hl|].
  cbn. apply elem_of_app. apply elem_of_cons in Hl as [<- | Hl];
    [left; exact Hx | right; apply IH, Hl].
Qed.

(** What [vmaxVoxelInfo] and [addVoxel] make of the local voxels of a
    snapshot whose offset fits an [int]. *)
Lemma vmaxVoxelInfo_moved_int (snapshot : Snapshot) (cx cy cz : Z)
    (locals : list VmaxVoxel) :
  0 <= s_id_c snapshot < 512 ->
  0 <= s_st_min3 snapshot <= INT_MAX ->
  decodeMorton3DOptimized (s_id_c snapshot) = (cx, cy, cz) ->
  decodeVoxels (s_ds snapshot) (s_st_min3 snapshot) (s_id_c snapshot)
  = Returned locals ->
  vmaxVoxelInfo (s_ds snapshot) (u64 (ci_id (vmaxChunkInfo snapshot)))
                (ci_mortoncode (vmaxChunkInfo snapshot))
  = Returned (moved cx cy cz <$> locals).
Proof.
  intros Hc Hb Hd Hdec. unfold INT_MAX in Hb.
  destruct (chunk_coords_small _ _ _ _ Hc Hd) as (Hx & Hy & Hz).
  unfold vmaxChunkInfo.
  destruct (decodeMorton3DOptimized (u32 (s_st_min3 snapshot))) as [[? ?] ?].
  cbn [ci_id ci_mortoncode].
  unfold vmaxVoxelInfo. autorewrite with unwrap. rewrite Hdec, Hd.
  autorewrite with unwrap. reflexivity.
Qed.

Lemma emplaced_moved_fields (snapshot : Snapshot) (cx cy cz : Z)
    (l : VmaxVoxel) :
  0 <= s_id_c snapshot < 512 ->
  decodeMorton3DOptimized (s_id_c snapshot) = (cx, cy, cz) ->
  0 <= v_x l <= 31 /\ 0 <= v_y l <= 31 /\ 0 <= v_z l <= 31 ->
  in_table (v_material l) (v_palette l) = true ->
  v_x (emplaced (vmaxChunkInfo snapshot) (moved cx cy cz l)) = cx * 8 + v_x l
  /\ v_y (emplaced (vmaxChunkInfo snapshot) (moved cx cy cz l))
     = cy * 8 + v_y l
  /\ v_z (emplaced (vmaxChunkInfo snapshot) (moved cx cy cz l))
     = cz * 8 + v_z l
  /\ v_material (emplaced (vmaxChunkInfo snapshot) (moved cx cy cz l))
     = v_material l
  /\ v_palette (emplaced (vmaxChunkInfo snapshot) (moved cx cy cz l))
     = v_palette l
  /\ v_chunkID (emplaced (vmaxChunkInfo snapshot) (moved cx cy cz l))
     = s_id_c snapshot.
Proof.
  intros Hc Hd (Hlx & Hly & Hlz) Hin. apply in_table_range in Hin.
  destruct (chunk_coords_small _ _ _ _ Hc Hd) as (Hx & Hy & Hz).
  unfold vmaxChunkInfo.
  destruct (decodeMorton3DOptimized (u32 (s_st_min3 snapshot))) as [[? ?] ?].
  unfold emplaced, moved, VmaxVoxel_ctor.
  cbn [v_x v_y v_z v_material v_palette v_chunkID ci_id ci_mortoncode].
  autorewrite with unwrap. repeat split; reflexivity.
Qed.

(** The same for every input: whatever snapshots are assembled, a voxel
    decoded at local position (x, y, z) of a chunk with coordinate
    (cx, cy, cz) is stored in the model at (cx*8 + x, cy*8 + y,
    cz*8 + z), not at chunk coordinate times 32; the composer adds chunk
    coordinate times 24, and only the instance it emits is placed at
    (cx*32 + x, cy*32 + y, cz*32 + z). *)
Lemma assembler_stores_chunk_times_8 (snapshots : list Snapshot)
    (name : string) :
  Forall snapshot_defined snapshots ->
  exists model,
    convertVmaxToBella_snapshots snapshots (VmaxModel_new name)
    = Returned model
    /\ forall snapshot locals l cx cy cz,
         snapshot ∈ snapshots ->
         0 <= s_id_c snapshot < 512 ->
         decodeMorton3DOptimized (s_id_c snapshot) = (cx, cy, cz) ->
         decodeVoxels (s_ds snapshot) (s_st_min3 snapshot) (s_id_c snapshot)
         = Returned locals ->
         l ∈ locals ->
         0 <= v_x l <= 31 /\ 0 <= v_y l <= 31 /\ 0 <= v_z l <= 31 ->
         in_table (v_material l) (v_palette l) = true ->
         exists w,
           w ∈ getVoxels model (v_material l) (v_palette l)
           /\ v_x w = cx * 8 + v_x l
           /\ v_y w = cy * 8 + v_y l
           /\ v_z w = cz * 8 + v_z l
           /\ v_chunkID w = s_id_c snapshot
           /\ instance_translation w
              = (cx * 32 + v_x l, cy * 32 + v_y l, cz * 32 + v_z l).
Proof.
  intros Hs.
  destruct (assembler_accumulates snapshots) with (model := VmaxModel_new name)
    as (model & Hrun & _ & Hb).
  { eapply Forall_impl; [exact Hs|]. intros s (Hds & _). exact Hds. }
  { apply table_wf_new. }
  exists model. split; [exact Hrun|].
  intros snapshot locals l cx cy cz Hsnap Hc Hd Hdec Hl Hlocal Hin.
  rewrite Forall_forall in Hs. destruct (Hs snapshot Hsnap) as (_ & Hlo & Hhi).
  assert (Hoff : 0 <= s_st_min3 snapshot <= INT_MAX).
  { split; [exact Hlo|].
    pose proof (Z.div_pos (Z.of_nat (length (s_ds snapshot))) 2). lia. }
  destruct (emplaced_moved_fields snapshot cx cy cz l Hc Hd Hlocal Hin)
    as (Hwx & Hwy & Hwz & Hwm & Hwp & Hwc).
  destruct (chunk_coords_small _ _ _ _ Hc Hd) as (Hx & Hy & Hz).
  exists (emplaced (vmaxChunkInfo snapshot) (moved cx cy cz l)).
  split; [|split; [exact Hwx|]; split; [exact Hwy|]; split; [exact Hwz|];
           split; [exact Hwc|]].
  - rewrite (Hb _ _ Hin), getVoxels_new. cbn [app].
    apply (elem_of_concat_of _ (snapshot_bucket (v_material l) (v_palette l)
                                                snapshot)).
    + unfold snapshot_bucket.
      rewrite (vmaxVoxelInfo_moved_int snapshot cx cy cz locals Hc Hoff Hd Hdec).
      apply list_elem_of_fmap. exists (moved cx cy cz l). split; [reflexivity|].
      apply list_elem_of_filter. split.
      * apply in_table_range in Hin. unfold in_bucket, moved, VmaxVoxel_ctor.
        cbn [v_material v_palette]. split; apply u8_small; lia.
      * apply list_elem_of_fmap. exists l. split; [reflexivity | exact Hl].
    + apply list_elem_of_fmap. exists snapshot. split; [reflexivity | exact Hsnap].
  - unfold instance_translation. rewrite Hwc, Hd, Hwx, Hwy, Hwz.
    rewrite !to_int_small by lia. f_equal; [f_equal|]; lia.
Qed.

(** The stored position does not tell the cells of the volume apart:
    the voxel at local (0,0,0) of chunk 1 and the voxel at local (8,0,0)
    of chunk 0 are both stored at (8,0,0). *)
Example stored_positions_collide :
  outcome_map (fun model =>
                 (fun w => (v_x w, v_y w, v_z w, v_chunkID w))
                 <$> getVoxels model 0 2)
    (convertVmaxToBella_snapshots
       [mkSnapshot 1 4 0 [0x00; 0x02]; mkSnapshot 0 4 512 [0x00; 0x02]]
       (VmaxModel_new "contents1.vmaxb"))
  = Returned [(8, 0, 0, 1); (8, 0, 0, 0)].
Proof. vm_compute. reflexivity. Qed.

(** ** File queue *)

Example queue_scenario5 :
  let q := (FQ.push (FQ.push (FQ.push FQ.new "a").2 "b").2 "a").2 in
  (FQ.pop q).1 = Some "a"
  /\ (FQ.pop (FQ.pop q).2).1 = Some "b"
  /\ (FQ.pop (FQ.pop (FQ.pop q).2).2).1 = None.
Proof. vm_compute. auto. Qed.

Lemma queue_inv_new : queue_inv FQ.new.
Proof.
  split; [constructor|]. cbn. rewrite dom_empty_L. reflexivity.
Qed.

Lemma queue_inv_push (q : FileQueue) (path : string) :
  queue_inv q -> queue_inv (FQ.push q path).2.
Proof.
  intros [Hnd Hdom]. unfold FQ.push.
  destruct (pathMap q !! path) as [b|] eqn:Hlook; [split; assumption|].
  assert (Hfresh : path ∉ pathVector q).
  { intros Hin. apply not_elem_of_dom in Hlook. apply Hlook.
    rewrite Hdom. apply elem_of_list_to_set. exact Hin. }
  split; cbn.
  - apply NoDup_app. split; [exact Hnd|]. split.
    + intros x Hx Hx'. apply list_elem_of_singleton in Hx'. subst. auto.
    + apply NoDup_singleton.
  - rewrite dom_insert_L, list_to_set_app_L, Hdom. cbn.
    rewrite (right_id_L ∅ (∪)). apply (comm_L (∪)).
Qed.

Lemma queue_inv_pop (q : FileQueue) : queue_inv q -> queue_inv (FQ.pop q).2.
Proof.
  intros [Hnd Hdom]. unfold FQ.pop.
  destruct (pathVector q) as [|outPath rest] eqn:Hvec;
    [unfold queue_inv; cbn; rewrite Hvec; split; assumption|].
  apply NoDup_cons in Hnd as [Hfresh Hnd]. split; cbn; [exact Hnd|].
  rewrite dom_delete_L, Hdom. cbn. apply set_eq. intros x.
  rewrite elem_of_difference, elem_of_union, elem_of_singleton,
    elem_of_list_to_set.
  split; [tauto|]. intros Hx. split; [tauto|]. intros ->. auto.
Qed.

Lemma queue_inv_remove (q : FileQueue) (path : string) :
  queue_inv q -> queue_inv (FQ.remove q path).2.
Proof.
  intros [Hnd Hdom]. unfold FQ.remove.
  destruct (pathMap q !! path) as [b|]; [|split; assumption].
  split; cbn.
  - apply NoDup_filter, Hnd.
  - rewrite dom_delete_L, Hdom. apply set_eq. intros x.
    rewrite elem_of_difference, !elem_of_list_to_set, list_elem_of_filter.
    rewrite elem_of_singleton. tauto.
Qed.

Lemma queue_inv_reachable (q : FileQueue) : reachable q -> queue_inv q.
Proof.
  induction 1 as [| q path _ IH | q _ IH | q _ IH | q path _ IH | q _ IH].
  - apply queue_inv_new.
  - apply queue_inv_push, IH.
  - apply queue_inv_pop, IH.
  - unfold FQ.probe. destruct (pathVector q); exact IH.
  - apply queue_inv_remove, IH.
  - apply queue_inv_new.
Qed.

(** C8: in every queue reachable from the empty queue the sequence and
    the lookup set have the same size, and a path is a key of the set
    exactly when it occurs in the sequence. *)
Theorem queue_containers_agree (q : FileQueue) :
  reachable q ->
  length (pathVector q) = size (pathMap q)
  /\ forall path, is_Some (pathMap q !! path) <-> path ∈ pathVector q.
Proof.
  intros Hq. destruct (queue_inv_reachable q Hq) as [Hnd Hdom]. split.
  - rewrite <- size_dom, Hdom. symmetry. apply size_list_to_set, Hnd.
  - intros path. rewrite <- elem_of_dom, Hdom. apply elem_of_list_to_set.
Qed.

Lemma queue_containers_agree_witness :
  let q := (FQ.remove (FQ.push (FQ.push FQ.new "a.bsz").2 "b.vmax").2 "a.bsz").2 in
  length (pathVector q) = size (pathMap q)
  /\ forall path, is_Some (pathMap q !! path) <-> path ∈ pathVector q.
Proof.
  intros q. apply (queue_containers_agree q).
  unfold q. apply reach_remove, reach_push, reach_push, reach_new.
Defined.

(** C9, counterexample: the path is already queued; two more pushes
    leave the size at 1. *)
Lemma push_twice_grows_by_one_counterexample :
  ~ push_twice_grows_by_one (FQ.push FQ.new "a.bsz").2 "a.bsz".
Proof. unfold push_twice_grows_by_one. vm_compute. discriminate. Qed.

(** C9, as the code has it: [push] appends the path and returns [true]
    when the path is absent, and changes nothing and returns [false]
    when it is present; two pushes of one path make the queue one longer
    when the path was absent and leave its size unchanged when it was
    present. *)
Theorem push_contract (q : FileQueue) (path : string) :
  FQ.push q path
  = (if FQ.contains q path then (false, q)
     else (true, mkFileQueue (pathVector q ++ [path])
                             (<[path := true]> (pathMap q))))
  /\ FQ.size (FQ.push (FQ.push q path).2 path).2
     = (if FQ.contains q path then FQ.size q else S (FQ.size q)).
Proof.
  unfold FQ.push, FQ.contains.
  destruct (pathMap q !! path) as [b|] eqn:Hlook.
  - split; [reflexivity|]. cbn. rewrite Hlook. reflexivity.
  - split; [reflexivity|]. cbn. rewrite lookup_insert_eq. cbn.
    unfold FQ.size. cbn. rewrite length_app. cbn. lia.
Qed.

(** ** Watch dispatcher *)

(** What the listener does with an Add or Modified event: the
    [download/] test guards the [.zip] suffix only. *)
Lemma handleFileAction_add (g : Queues) (dir filename : string) (action : Action) :
  action = Add \/ action = Modified ->
  handleFileAction false g dir filename action
  = if (endsWith (dir +:+ filename) ".vmax"
        || endsWith (dir +:+ filename) ".bsz"
        || endsWith (dir +:+ filename) ".zip" && negb (endsWith dir "download/"))
       && negb (FQ.contains (fileQueue g) (dir +:+ filename))
    then mkQueues (FQ.push (fileQueue g) (dir +:+ filename)).2 (unfileQueue g)
    else g.
Proof.
  intros [-> | ->]; unfold handleFileAction; cbn;
    destruct (endsWith (dir +:+ filename) ".vmax"),
             (endsWith (dir +:+ filename) ".bsz"),
             (endsWith (dir +:+ filename) ".zip"),
             (endsWith dir "download/"),
             (FQ.contains (fileQueue g) (dir +:+ filename)); reflexivity.
Qed.

(** C6: an Add event for a [.vmax] file, and one for a [.bsz] file, in
    a directory that ends in [download/]: both paths are queued. *)
Theorem dispatcher_queues_download_files :
  endsWith "/watch/download/" "download/" = true
  /\ pathVector (fileQueue (handleFileAction false (mkQueues FQ.new FQ.new)
                              "/watch/download/" "castle.vmax" Add))
     = ["/watch/download/castle.vmax"]
  /\ pathVector (fileQueue (handleFileAction false (mkQueues FQ.new FQ.new)
                              "/watch/download/" "castle.bsz" Add))
     = ["/watch/download/castle.bsz"]
  /\ pathVector (fileQueue (handleFileAction false (mkQueues FQ.new FQ.new)
                              "/watch/download/" "castle.zip" Add))
     = [].
Proof. repeat split; vm_compute; reflexivity. Qed.

Example dispatcher_scenario6 :
  let g := handleFileAction false
             (handleFileAction false (mkQueues FQ.new FQ.new)
                               "/watch/" "castle.bsz" Delete)
             "/watch/" "castle.bsz" Add in
  pathVector (unfileQueue g) = ["/watch/castle.bsz"]
  /\ pathVector (fileQueue g) = ["/watch/castle.bsz"].
Proof. vm_compute. auto. Qed.

(** ** Render loop *)

(** C7: two scene files arrive, the loop starts rendering the first;
    the first is then deleted and the loop runs again.  The delete is
    popped and dropped: the engine is never told to stop and the render
    slot stays taken. *)
Theorem delete_of_rendering_scene_is_dropped :
  let s1 := DL_main_iteration
              (watcher_event "/watch/" "b.bsz" Add
                 (watcher_event "/watch/" "a.bsz" Add initial_state)) in
  let s2 := DL_main_iteration (watcher_event "/watch/" "a.bsz" Delete s1) in
  engine_calls s1 = [LoadScene "/watch/a.bsz"; SetResolution 200 200; Start]
  /\ active_render s1 = true
  /\ pathVector (unfileQueue (queues (watcher_event "/watch/" "a.bsz" Delete s1)))
     = ["/watch/a.bsz"]
  /\ engine_calls s2 = [LoadScene "/watch/a.bsz"; SetResolution 200 200; Start]
  /\ active_render s2 = true
  /\ pathVector (renderUnqueue s2) = []
  /\ pathVector (unfileQueue (queues s2)) = []
  /\ pathVector (renderQueue s2) = ["/watch/b.bsz"].
Proof. vm_compute. repeat split; reflexivity. Qed.

(** While a render is in flight, a pass of the loop compares every
    popped delete with an empty string: no delete of a named file stops
    the engine or releases the render slot. *)
Lemma drain_paths (fuel : nat) :
  forall (src dst : FileQueue) (p : string),
    p ∈ pathVector (drain fuel src dst).2 ->
    p ∈ pathVector dst \/ p ∈ pathVector src.
Proof.
  induction fuel as [|fuel IH]; intros src dst p; cbn; [auto|].
  unfold FQ.pop. destruct (pathVector src) as [|x rest] eqn:Hsrc; cbn; [auto|].
  intros Hp. apply IH in Hp. cbn in Hp. destruct Hp as [Hp|Hp].
  - unfold FQ.push in Hp. destruct (pathMap dst !! x); cbn in Hp; [auto|].
    apply elem_of_app in Hp as [Hp|Hp]; [auto|].
    apply list_elem_of_singleton in Hp. subst. right. left.
  - right. right. exact Hp.
Qed.

Lemma pop_deletes_keeps_engine (fuel : nat) :
  forall s : WatchState,
    "" ∉ pathVector (renderUnqueue s) ->
    engine_calls (pop_deletes fuel "" s) = engine_calls s
    /\ active_render (pop_deletes fuel "" s) = active_render s.
Proof.
  induction fuel as [|fuel IH]; intros s Hs; cbn; [auto|].
  unfold FQ.pop. destruct (pathVector (renderUnqueue s)) as [|path rest] eqn:Hv;
    [auto|].
  assert (Hpath : String.eqb path "" = false).
  { apply String.eqb_neq. intros ->. apply Hs. left. }
  assert (Hrest : "" ∉ rest) by (intros Hin; apply Hs; right; exact Hin).
  rewrite Hpath.
  destruct (FQ.contains (renderQueue s) path);
    match goal with |- context [pop_deletes fuel "" ?s'] =>
      destruct (IH s' Hrest) as [-> ->] end; auto.
Qed.

Lemma iteration_never_stops (s : WatchState) :
  active_render s = true ->
  "" ∉ pathVector (renderUnqueue s) ->
  "" ∉ pathVector (unfileQueue (queues s)) ->
  engine_calls (DL_main_iteration s) = engine_calls s
  /\ active_render (DL_main_iteration s) = true.
Proof.
  intros Hact Hunq Hunf. unfold DL_main_iteration.
  destruct (drain (FQ.size (fileQueue (queues s))) (fileQueue (queues s))
                  (renderQueue s)) as [fq rq].
  destruct (drain (FQ.size (unfileQueue (queues s))) (unfileQueue (queues s))
                  (if FQ.empty (renderQueue s) then FQ.clear (renderUnqueue s)
                   else renderUnqueue s)) as [ufq ruq] eqn:Hdrain.
  assert (Hruq : "" ∉ pathVector ruq).
  { intros Hin. change ruq with (ufq, ruq).2 in Hin. rewrite <- Hdrain in Hin.
    apply drain_paths in Hin as [Hin|Hin]; [|auto].
    destruct (FQ.empty (renderQueue s)); [inversion Hin | auto]. }
  rewrite Hact. cbn [Bool.eqb].
  destruct (negb (FQ.empty rq)); [|auto].
  match goal with |- context [pop_deletes ?f "" ?s'] =>
    destruct (pop_deletes_keeps_engine f s' Hruq) as [-> ->] end.
  auto.
Qed.

(** ** Palette loader *)

Example palette_2x1 :
  read256x1PaletteFromPNG
    (Some (mkStbImage 2 1 [255; 0; 0; 255; 0; 255; 0; 128]))
  = ([WarningDimensions 2 1],
     Returned [mkVmaxRGBA 255 0 0 255; mkVmaxRGBA 0 255 0 128]).
Proof. vm_compute. reflexivity. Qed.

(** C10, counterexample: a decodable image two pixels wide; the table
    has two entries. *)
Lemma palette_has_256_entries_counterexample :
  ~ palette_has_256_entries
      (mkStbImage 2 1 [255; 0; 0; 255; 0; 255; 0; 128]).
Proof.
  intros (diagnostics & palette & Hread & Hlen).
  vm_compute in Hread. inversion Hread; subst. discriminate Hlen.
Qed.

Lemma lookup_nth_in_range (data : list Z) (i : nat) :
  (i < length data)%nat -> data !! i = Some (nth i data 0).
Proof.
  intros Hi. destruct (lookup_lt_is_Some_2 data i Hi) as [x Hx].
  rewrite Hx. f_equal. symmetry. apply nth_lookup_Some with (d := 0) in Hx.
  exact Hx.
Qed.

Lemma palette_loop_pixels (data : list Z) (width : Z) :
  width * 4 <= Z.of_nat (length data) ->
  forall (fuel : nat) (i : nat) (palette : list VmaxRGBA),
    Z.of_nat i <= width ->
    (Z.to_nat width - i < fuel)%nat ->
    palette_loop fuel data width (Z.of_nat i) palette
    = Returned (palette ++ pixels data i (Z.to_nat width - i)).
Proof.
  intros Hdata. induction fuel as [|fuel IH]; intros i palette Hi Hfuel; [lia|].
  cbn [palette_loop].
  destruct (Z.ltb_spec (Z.of_nat i) width) as [Hlt|Hge].
  - replace (Z.to_nat (Z.of_nat i * 4)) with (4 * i)%nat by lia.
    replace (Z.to_nat (Z.of_nat i * 4 + 1)) with (4 * i + 1)%nat by lia.
    replace (Z.to_nat (Z.of_nat i * 4 + 2)) with (4 * i + 2)%nat by lia.
    replace (Z.to_nat (Z.of_nat i * 4 + 3)) with (4 * i + 3)%nat by lia.
    rewrite !lookup_nth_in_range by lia.
    replace (Z.of_nat i + 1) with (Z.of_nat (S i)) by lia.
    rewrite IH by lia. rewrite <- app_assoc. do 2 f_equal.
    replace (Z.to_nat width - i)%nat with (S (Z.to_nat width - S i)) by lia.
    reflexivity.
  - replace (Z.to_nat width - i)%nat with 0%nat by lia.
    unfold pixels. cbn. rewrite app_nil_r. reflexivity.
Qed.

(** C10, as the code has it: for a decoded image the loader returns one
    entry per pixel of the first row, that is as many entries as the
    image is wide, 256 only when the width is 256; it warns when the
    image is not 256 by 1 and goes on. *)
Theorem palette_has_width_entries (img : StbImage) :
  image_wf img ->
  read256x1PaletteFromPNG (Some img)
  = (if negb (img_width img =? 256) || negb (img_height img =? 1)
     then [WarningDimensions (img_width img) (img_height img)] else [],
     Returned (pixels (img_data img) 0 (Z.to_nat (img_width img))))
  /\ length (pixels (img_data img) 0 (Z.to_nat (img_width img)))
     = Z.to_nat (img_width img).
Proof.
  intros (Hw & Hh & Hlen). split.
  - unfold read256x1PaletteFromPNG. f_equal.
    change 0 with (Z.of_nat 0) at 1.
    rewrite (palette_loop_pixels (img_data img) (img_width img)
               ltac:(nia) (S (Z.to_nat (img_width img))) 0 []) by lia.
    rewrite Nat.sub_0_r. reflexivity.
  - unfold pixels. rewrite length_fmap, length_seq. reflexivity.
Qed.

Lemma palette_has_width_entries_witness :
  read256x1PaletteFromPNG
    (Some (mkStbImage 2 1 [255; 0; 0; 255; 0; 255; 0; 128]))
  = ([WarningDimensions 2 1],
     Returned (pixels [255; 0; 0; 255; 0; 255; 0; 128] 0 2))
  /\ length (pixels [255; 0; 0; 255; 0; 255; 0; 128] 0 2) = 2%nat.
Proof.
  apply (palette_has_width_entries
           (mkStbImage 2 1 [255; 0; 0; 255; 0; 255; 0; 128])).
  unfold image_wf. cbn. lia.
Defined.

(** * Part IV: further properties *)

(** ** Morton codec, bit by bit *)

(** Reading one bit of a chain of masks, shifts and exclusive ors. *)
Ltac bits_step :=
  repeat (rewrite ?Z.land_spec, ?Z.lxor_spec, ?Z.shiftr_spec by lia);
  cbn [Z.add Z.mul Pos.add Pos.mul Pos.succ Pos.add_carry];
  repeat match goal with
  | |- context [Z.testbit (Zpos ?p) (Zpos ?q)] =>
      let b := eval vm_compute in (Z.testbit (Zpos p) (Zpos q)) in
      change (Z.testbit (Zpos p) (Zpos q)) with b
  | |- context [Z.testbit (Zpos ?p) 0] =>
      let b := eval vm_compute in (Z.testbit (Zpos p) 0) in
      change (Z.testbit (Zpos p) 0) with b
  end;
  rewrite ?andb_true_r, ?andb_false_r, ?xorb_false_r, ?xorb_false_l.

Lemma compactBits_high_bits (n i : Z) :
  8 <= i -> Z.testbit (compactBits n) i = false.
Proof.
  intros Hi. rewrite <- compactBits_byte. unfold u8.
  change 256 with (2 ^ 8). apply Z.mod_pow2_bits_high. lia.
Qed.

Lemma compactBits_low_bits (n i : Z) :
  0 <= i < 8 ->
  Z.testbit (compactBits n) i
  = if i <? 3 then xorb (Z.testbit n (3 * i)) (Z.testbit n (3 * i + 24))
    else Z.testbit n (3 * i).
Proof.
  intros Hi.
  assert (Hc : i = 0 \/ i = 1 \/ i = 2 \/ i = 3 \/ i = 4 \/ i = 5 \/ i = 6
               \/ i = 7) by lia.
  repeat destruct Hc as [-> | Hc]; try subst i;
    unfold compactBits; bits_step; reflexivity.
Qed.

(** X1: bit [i] of [compactBits n] is bit [3i] of [n] for [3 <= i < 8];
    the three lowest bits also receive bits 24, 27 and 30 of [n]; no bit
    above the seventh is ever set. *)
Theorem compactBits_bits (n i : Z) :
  0 <= i ->
  Z.testbit (compactBits n) i
  = if i <? 3 then xorb (Z.testbit n (3 * i)) (Z.testbit n (3 * i + 24))
    else if i <? 8 then Z.testbit n (3 * i)
    else false.
Proof.
  intros Hi. destruct (Z.ltb_spec i 8) as [Hlow|Hhigh].
  - rewrite compactBits_low_bits by lia. reflexivity.
  - rewrite compactBits_high_bits by exact Hhigh.
    destruct (Z.ltb_spec i 3); [lia | reflexivity].
Qed.

Lemma compactBits_bits_witness :
  Z.testbit (compactBits 16777217) 0
  = xorb (Z.testbit 16777217 (3 * 0)) (Z.testbit 16777217 (3 * 0 + 24)).
Proof. apply (compactBits_bits 16777217 0). lia. Defined.

Lemma testbit_above (n k j : Z) :
  0 <= n < 2 ^ k -> 0 <= k <= j -> Z.testbit n j = false.
Proof.
  intros Hn Hj. rewrite <- (Z.mod_small n (2 ^ k)) by lia.
  apply Z.mod_pow2_bits_high. lia.
Qed.

Lemma shiftr_below (m k w : Z) :
  0 <= k -> 0 <= m < 2 ^ w -> 0 <= Z.shiftr m k < 2 ^ w.
Proof.
  intros Hk Hm. split; [apply Z.shiftr_nonneg; lia|].
  rewrite Z.shiftr_div_pow2 by lia.
  apply Z.le_lt_trans with m; [|lia].
  assert (0 < 2 ^ k) by (apply Z.pow_pos_nonneg; lia).
  apply Z.div_le_upper_bound; [lia|]. nia.
Qed.

Lemma compactBits_bits_24 (n i : Z) :
  0 <= n < 2 ^ 24 -> 0 <= i ->
  Z.testbit (compactBits n) i = Z.testbit n (3 * i).
Proof.
  intros Hn Hi. destruct (Z.ltb_spec i 8) as [Hlow|Hhigh].
  - rewrite compactBits_low_bits by lia.
    destruct (Z.ltb_spec i 3); [|reflexivity].
    rewrite (testbit_above n 24 (3 * i + 24)) by lia. apply xorb_false_r.
  - rewrite compactBits_high_bits by exact Hhigh.
    symmetry. apply (testbit_above n 24); lia.
Qed.

(** X2: on a code below 2^24 the decoder is exact: bit [i] of x, y and
    z is bit [3i], [3i+1] and [3i+2] of the code, for every [i]. *)
Theorem decodeMorton3DOptimized_bits (morton i : Z) :
  0 <= morton < 2 ^ 24 -> 0 <= i ->
  Z.testbit (decodeMorton3DOptimized morton).1.1 i = Z.testbit morton (3 * i)
  /\ Z.testbit (decodeMorton3DOptimized morton).1.2 i
     = Z.testbit morton (3 * i + 1)
  /\ Z.testbit (decodeMorton3DOptimized morton).2 i
     = Z.testbit morton (3 * i + 2).
Proof.
  intros Hm Hi. unfold decodeMorton3DOptimized. cbn [fst snd].
  pose proof (shiftr_below morton 1 24 ltac:(lia) Hm) as H1.
  pose proof (shiftr_below morton 2 24 ltac:(lia) Hm) as H2.
  rewrite !compactBits_bits_24 by assumption.
  rewrite !Z.shiftr_spec by lia. auto.
Qed.

Lemma decodeMorton3DOptimized_bits_witness :
  Z.testbit (decodeMorton3DOptimized 43).1.1 1 = Z.testbit 43 (3 * 1)
  /\ Z.testbit (decodeMorton3DOptimized 43).1.2 1 = Z.testbit 43 (3 * 1 + 1)
  /\ Z.testbit (decodeMorton3DOptimized 43).2 1 = Z.testbit 43 (3 * 1 + 2).
Proof. apply (decodeMorton3DOptimized_bits 43 1); lia. Defined.

(** ** What the chunk decoder emits *)

Lemma decode_pairs_present (b k : Z) (ds : list Z) :
  forall i,
    Forall (fun v => v_palette v <> 0 /\ v_chunkID v = k
                     /\ v_minMorton v = u16 b)
           (decode_pairs b k i ds)
    /\ 2 * Z.of_nat (length (decode_pairs b k i ds)) <= Z.of_nat (length ds).
Proof.
  induction ds as [| x | m c rest IH] using list_pair_ind; intros i;
    [split; [constructor | cbn; lia] .. |].
  cbn [decode_pairs]. destruct (IH (i + 1)) as [IHf IHl].
  destruct (decodeMorton3DOptimized (u32 (i + b))) as [[lx ly] lz].
  destruct (Z.eqb_spec c 0) as [->|Hc]; cbn [app length]; split; try lia.
  - exact IHf.
  - constructor; [cbn; auto | exact IHf].
Qed.

(** X3: on a stream of at least one byte, called with a base offset
    that is an [int] and to which the number of pairs of the stream can
    be added without leaving the range of [int] (so that no sum
    [i/2 + mortonOffset] overflows), the decoder returns voxels whose
    palette index is never 0, each carrying the chunk id it was called
    with and the base offset reduced to 16 bits, and never more voxels
    than the stream has pairs. *)
Theorem decodeVoxels_emits_present_voxels (ds : list Z) (b k : Z) :
  decodable ds ->
  - INT_MAX - 1 <= b ->
  b + Z.of_nat (length ds) / 2 <= INT_MAX ->
  exists vs,
    decodeVoxels ds b k = Returned vs
    /\ Forall (fun v => v_palette v <> 0 /\ v_chunkID v = k
                        /\ v_minMorton v = u16 b) vs
    /\ 2 * Z.of_nat (length vs) <= Z.of_nat (length ds).
Proof.
  intros Hds _ _. exists (decode_pairs b k 0 ds).
  split; [apply decodeVoxels_decodable, Hds | apply decode_pairs_present].
Qed.

Lemma decodeVoxels_emits_present_voxels_witness :
  exists vs,
    decodeVoxels [3; 0; 1; 5; 9] 70000 2 = Returned vs
    /\ Forall (fun v => v_palette v <> 0 /\ v_chunkID v = 2
                        /\ v_minMorton v = u16 70000) vs
    /\ 2 * Z.of_nat (length vs) <= Z.of_nat (length [3; 0; 1; 5; 9]).
Proof.
  apply (decodeVoxels_emits_present_voxels [3; 0; 1; 5; 9] 70000 2).
  - split; [discriminate | unfold INT_MAX; cbn; lia].
  - unfold INT_MAX. lia.
  - vm_compute. discriminate.
Defined.

Lemma compactBits_lt_32 (n : Z) : 0 <= n < 2 ^ 15 -> 0 <= compactBits n <= 31.
Proof.
  intros Hn. pose proof (compactBits_range n) as Hr.
  assert (H : compactBits n = compactBits n mod 2 ^ 5).
  { apply Z.bits_inj'. intros i Hi. destruct (Z.ltb_spec i 5).
    - rewrite Z.mod_pow2_bits_low by lia. reflexivity.
    - rewrite Z.mod_pow2_bits_high by lia.
      rewrite compactBits_bits_24 by (change (2 ^ 24) with 16777216;
                                       change (2 ^ 15) with 32768 in Hn; lia).
      apply (testbit_above n 15); lia. }
  rewrite H. pose proof (Z.mod_pos_bound (compactBits n) (2 ^ 5) ltac:(lia)).
  change (2 ^ 5) with 32 in *. lia.
Qed.

Lemma decode_local (n : Z) :
  0 <= n < 32768 ->
  (0 <= (decodeMorton3DOptimized n).1.1 <= 31
   /\ 0 <= (decodeMorton3DOptimized n).1.2 <= 31)
  /\ 0 <= (decodeMorton3DOptimized n).2 <= 31.
Proof.
  intros Hn. unfold decodeMorton3DOptimized. cbn [fst snd].
  change 32768 with (2 ^ 15) in Hn.
  repeat split; apply compactBits_lt_32;
    try exact Hn; apply shiftr_below; lia.
Qed.

Lemma decode_pairs_local (b k : Z) (ds : list Z) :
  0 <= b -> Forall (fun byte => 0 <= byte < 256) ds ->
  forall i, 0 <= i -> i + b + Z.of_nat (length ds) / 2 <= 32768 ->
  Forall local_voxel (decode_pairs b k i ds).
Proof.
  intros Hb. induction ds as [| x | m c rest IH] using list_pair_ind;
    intros Hbytes i Hi Hlen; [constructor .. |].
  cbn [decode_pairs]. inversion Hbytes as [|? ? Hm Hrest]; subst.
  inversion Hrest as [|? ? Hc Hrest']; subst.
  cbn [length] in Hlen.
  replace (Z.of_nat (S (S (length rest))))
    with (Z.of_nat (length rest) + 1 * 2) in Hlen by lia.
  rewrite Z.div_add in Hlen by lia.
  assert (Hdiv : 0 <= Z.of_nat (length rest) / 2) by (apply Z.div_pos; lia).
  assert (Hfit : 0 <= i + b < 32768) by lia.
  apply Forall_app. split.
  - rewrite u32_small by lia. pose proof (decode_local (i + b) Hfit) as Hd.
    destruct (decodeMorton3DOptimized (i + b)) as [[lx ly] lz].
    destruct (c =? 0); constructor; [|constructor].
    unfold local_voxel. cbn in *. lia.
  - apply IH; [exact Hrest' | lia | lia].
Qed.

(** X4: when the base offset plus the number of pairs stays within the
    32768 cells of a chunk, every voxel the decoder returns has its
    three local coordinates in 0..31. *)
Theorem decodeVoxels_inside_chunk (ds : list Z) (b k : Z) :
  decodable ds ->
  Forall (fun byte => 0 <= byte < 256) ds ->
  0 <= b -> b + Z.of_nat (length ds) / 2 <= 32768 ->
  exists vs,
    decodeVoxels ds b k = Returned vs
    /\ Forall (fun v => (0 <= v_x v <= 31 /\ 0 <= v_y v <= 31)
                        /\ 0 <= v_z v <= 31) vs.
Proof.
  intros Hds Hbytes Hb Hfit. exists (decode_pairs b k 0 ds).
  split; [apply decodeVoxels_decodable, Hds|].
  eapply Forall_impl; [apply decode_pairs_local; try assumption; lia|].
  intros v ((Hx & Hy & Hz) & _). auto.
Qed.

Lemma decodeVoxels_inside_chunk_witness :
  exists vs,
    decodeVoxels [0; 7; 1; 5] 32766 3 = Returned vs
    /\ Forall (fun v => (0 <= v_x v <= 31 /\ 0 <= v_y v <= 31)
                        /\ 0 <= v_z v <= 31) vs.
Proof.
  apply (decodeVoxels_inside_chunk [0; 7; 1; 5] 32766 3).
  - split; [discriminate | unfold INT_MAX; cbn; lia].
  - repeat constructor; lia.
  - lia.
  - apply Z.leb_le. reflexivity.
Defined.

(** ** The assembled model *)

(** X5: [addVoxel] with a material in 0..7 and a colour in 1..255 puts
    the voxel at the end of the bucket of that material and colour;
    every other bucket reads as before. *)
Theorem addVoxel_getVoxels (model : VmaxModel) (x y z m c ch cm m' c' : Z) :
  table_wf (voxels model) -> in_table m c = true -> in_table m' c' = true ->
  getVoxels (addVoxel model x y z m c ch cm) m' c'
  = if decide (m = m' /\ c = c')
    then getVoxels model m c ++ [VmaxVoxel_ctor x y z m c ch cm]
    else getVoxels model m' c'.
Proof.
  intros Hwf Hin Hin'. rewrite getVoxels_addVoxel by assumption.
  destruct (decide (m = m' /\ c = c')) as [[<- <-]|Hne];
    [reflexivity | apply app_nil_r].
Qed.

Lemma addVoxel_getVoxels_witness :
  getVoxels (addVoxel (VmaxModel_new "contents1.vmaxb") 1 2 3 0 5 0 0) 0 5
  = if decide (0 = 0 /\ 5 = 5)
    then getVoxels (VmaxModel_new "contents1.vmaxb") 0 5
         ++ [VmaxVoxel_ctor 1 2 3 0 5 0 0]
    else getVoxels (VmaxModel_new "contents1.vmaxb") 0 5.
Proof.
  apply (addVoxel_getVoxels (VmaxModel_new "contents1.vmaxb")
           1 2 3 0 5 0 0 0 5);
    [apply table_wf_new | reflexivity | reflexivity].
Defined.

Lemma elem_of_concat {A : Type} (x : A) (ls : list (list A)) :
  x ∈ concat ls -> exists l, x ∈ l /\ l ∈ ls.
Proof.
  induction ls as [|l ls IH]; cbn; [inversion 1|].
  intros [Hx|Hx]%elem_of_app.
  - exists l. split; [exact Hx | left].
  - destruct (IH Hx) as (l' & Hl' & Hin). exists l'. split; [exact Hl' | right; exact Hin].
Qed.

Lemma in_grid_decodable (snapshot : Snapshot) :
  s_ds snapshot <> [] -> snapshot_in_grid snapshot -> decodable (s_ds snapshot).
Proof.
  intros Hne (_ & Hb & Hfit & _). split; [exact Hne|]. unfold INT_MAX.
  pose proof (Z.div_mod (Z.of_nat (length (s_ds snapshot))) 2 ltac:(lia)).
  pose proof (Z.mod_pos_bound (Z.of_nat (length (s_ds snapshot))) 2 ltac:(lia)).
  lia.
Qed.

Lemma snapshot_bucket_in_grid (snapshot : Snapshot) (m c : Z) (w : VmaxVoxel) :
  s_ds snapshot <> [] ->
  snapshot_in_grid snapshot -> w ∈ snapshot_bucket m c snapshot ->
  in_grid (instance_translation w).
Proof.
  intros Hne Hgrid Hw. pose proof (in_grid_decodable snapshot Hne Hgrid) as Hds.
  destruct Hgrid as (Hc & Hb & Hfit & Hbytes).
  destruct (decodeMorton3DOptimized (s_id_c snapshot)) as [[cx cy] cz] eqn:Hd.
  destruct (chunk_coords_small _ _ _ _ Hc Hd) as (Hx & Hy & Hz).
  assert (Hdec : decodeVoxels (s_ds snapshot) (s_st_min3 snapshot)
                              (s_id_c snapshot)
                 = Returned (decode_pairs (s_st_min3 snapshot)
                                          (s_id_c snapshot) 0 (s_ds snapshot)))
    by (apply decodeVoxels_decodable, Hds).
  assert (Hloc : Forall local_voxel
                   (decode_pairs (s_st_min3 snapshot) (s_id_c snapshot) 0
                                 (s_ds snapshot)))
    by (apply decode_pairs_local; try assumption; lia).
  unfold snapshot_bucket in Hw.
  rewrite (vmaxVoxelInfo_moved snapshot Hc Hb cx cy cz Hd _ Hdec) in Hw.
  apply list_elem_of_fmap in Hw as (v & -> & Hv).
  apply list_elem_of_filter in Hv as [_ Hv].
  apply list_elem_of_fmap in Hv as (l & -> & Hl).
  rewrite Forall_forall in Hloc. specialize (Hloc l Hl).
  rewrite (emplaced_moved snapshot Hc Hb cx cy cz Hd l Hloc).
  rewrite (instance_translation_stored snapshot cx cy cz l Hc Hd).
  destruct Hloc as ((Hlx & Hly & Hlz) & _).
  unfold in_grid. cbn [fst snd]. lia.
Qed.

Lemma assembler_in_grid (snapshots : list Snapshot) (model : VmaxModel) :
  Forall (fun snapshot => s_ds snapshot <> []) snapshots ->
  Forall snapshot_in_grid snapshots ->
  table_wf (voxels model) ->
  (forall m c w, w ∈ getVoxels model m c -> in_grid (instance_translation w)) ->
  exists model',
    convertVmaxToBella_snapshots snapshots model = Returned model'
    /\ forall m c w,
         w ∈ getVoxels model' m c -> in_grid (instance_translation w).
Proof.
  intros Hne Hs Hwf Hold. rewrite Forall_forall in Hne, Hs.
  destruct (assembler_accumulates snapshots) with (model := model)
    as (model' & Hrun & _ & Hb); [|exact Hwf|].
  { apply Forall_forall. intros s Hsin.
    apply in_grid_decodable; [apply Hne | apply Hs]; exact Hsin. }
  exists model'. split; [exact Hrun|]. intros m c w Hw.
  destruct (in_table m c) eqn:Hin.
  - rewrite (Hb m c Hin) in Hw. apply elem_of_app in Hw as [Hw|Hw];
      [apply (Hold m c w Hw)|].
    apply elem_of_concat in Hw as (bucket & Hw & Hbucket).
    apply list_elem_of_fmap in Hbucket as (s & -> & Hsin).
    apply (snapshot_bucket_in_grid s m c w (Hne s Hsin) (Hs s Hsin) Hw).
  - unfold getVoxels in Hw. rewrite Hin in Hw. inversion Hw.
Qed.

(** X6: when no snapshot has an empty stream and every snapshot stays
    inside its chunk, the assembler returns a model, and the instance
    the composer places for any voxel of any bucket lies inside the
    256x256x256 grid.  (On a snapshot with an empty stream the decoder
    reads out of bounds and the assembler returns nothing.) *)
Theorem assembled_instances_in_grid (snapshots : list Snapshot) (name : string) :
  Forall (fun snapshot => s_ds snapshot <> []) snapshots ->
  Forall snapshot_in_grid snapshots ->
  exists model,
    convertVmaxToBella_snapshots snapshots (VmaxModel_new name)
    = Returned model
    /\ forall m c w,
         w ∈ getVoxels model m c -> in_grid (instance_translation w).
Proof.
  intros Hne Hs.
  apply assembler_in_grid; [exact Hne | exact Hs | apply table_wf_new|].
  intros m c w Hw. rewrite getVoxels_new in Hw. inversion Hw.
Qed.

Lemma assembled_instances_in_grid_witness :
  exists model,
    convertVmaxToBella_snapshots [mkSnapshot 511 4 32767 [7; 255]]
                                 (VmaxModel_new "contents1.vmaxb")
    = Returned model
    /\ forall m c w,
         w ∈ getVoxels model m c -> in_grid (instance_translation w).
Proof.
  apply (assembled_instances_in_grid [mkSnapshot 511 4 32767 [7; 255]]
           "contents1.vmaxb").
  - constructor; [discriminate | constructor].
  - constructor; [|constructor]. unfold snapshot_in_grid.
    cbn [s_id_c s_st_min3 s_ds].
    split; [lia|]. split; [lia|]. split; [vm_compute; discriminate|].
    repeat constructor; lia.
Defined.

(** ** Counting voxels *)

Lemma foldl_add_sum {A : Type} (f : A -> nat) (l : list A) (a : nat) :
  foldl (fun count x => (count + f x)%nat) a l = (a + sum_list (f <$> l))%nat.
Proof.
  revert a. induction l as [|x l IH]; intros a; cbn; [lia|].
  rewrite IH. lia.
Qed.

Lemma foldl_pointwise {A B : Type} (f g : A -> B -> A) (l : list B) (a : A) :
  (forall a x, f a x = g a x) -> foldl f a l = foldl g a l.
Proof.
  intros Hfg. revert a. induction l as [|x l IH]; intros a; cbn; [reflexivity|].
  rewrite Hfg. apply IH.
Qed.

Lemma getTotalVoxelCount_sum (model : VmaxModel) :
  getTotalVoxelCount model
  = sum_list ((fun m => sum_list ((fun c => length (bucket (voxels model) m c))
                                  <$> seq 1 255))
              <$> seq 0 8).
Proof.
  unfold getTotalVoxelCount.
  rewrite <- (Nat.add_0_l (sum_list _)).
  rewrite <- (foldl_add_sum
                (fun m => sum_list ((fun c => length (bucket (voxels model) m c))
                                    <$> seq 1 255)) (seq 0 8) 0%nat).
  apply foldl_pointwise. intros count m. apply foldl_add_sum.
Qed.

(** Raising the summand of one element raises the sum by one when the
    element is in the list. *)
Lemma sum_list_bump (f g : nat -> nat) (a : nat) (l : list nat) :
  NoDup l ->
  (forall x, x ∈ l -> g x = (f x + if decide (x = a) then 1 else 0)%nat) ->
  sum_list (g <$> l)
  = (sum_list (f <$> l) + if decide (a ∈ l) then 1 else 0)%nat.
Proof.
  induction 1 as [|x l Hx Hnd IH]; intros Hg; cbn.
  - rewrite decide_False by (intros H; inversion H). reflexivity.
  - rewrite IH by (intros y Hy; apply Hg; right; exact Hy).
    rewrite Hg by left.
    destruct (decide (x = a)) as [->|Hne].
    + rewrite (decide_False (P := a ∈ l)) by exact Hx.
      rewrite decide_True by left. lia.
    + destruct (decide (a ∈ l)) as [Hin|Hnin].
      * rewrite decide_True by (right; exact Hin). lia.
      * rewrite decide_False; [lia|].
        intros [?|?]%elem_of_cons; [congruence | contradiction].
Qed.

Lemma table_sum_bump (t : list (list (list VmaxVoxel)))
    (f : list VmaxVoxel -> list VmaxVoxel) (i j : nat) (mats cols : list nat) :
  table_wf t -> (i < 8)%nat -> (j < 256)%nat ->
  (forall b, length (f b) = S (length b)) ->
  NoDup mats -> NoDup cols -> i ∈ mats -> j ∈ cols ->
  sum_list ((fun m => sum_list ((fun c => length (bucket (alter (alter f j) i t) m c))
                                <$> cols)) <$> mats)
  = S (sum_list ((fun m => sum_list ((fun c => length (bucket t m c)) <$> cols))
                 <$> mats)).
Proof.
  intros Hwf Hi Hj Hf Hmats Hcols Him Hjc.
  rewrite (sum_list_bump
             (fun m => sum_list ((fun c => length (bucket t m c)) <$> cols))
             (fun m => sum_list ((fun c => length (bucket (alter (alter f j) i t) m c))
                                 <$> cols))
             i mats Hmats).
  - rewrite decide_True by exact Him. lia.
  - intros m _. destruct (decide (m = i)) as [->|Hm].
    + rewrite (sum_list_bump (fun c => length (bucket t i c))
                 (fun c => length (bucket (alter (alter f j) i t) i c))
                 j cols Hcols).
      * rewrite decide_True by exact Hjc. reflexivity.
      * intros c _. rewrite bucket_alter by assumption.
        destruct (decide (c = j)) as [->|Hc].
        -- rewrite decide_True by done. rewrite Hf. lia.
        -- rewrite decide_False by (intros [_ ?]; congruence). lia.
    + rewrite Nat.add_0_r. f_equal. apply list_fmap_ext. intros k c _.
      rewrite bucket_alter by assumption.
      rewrite decide_False by (intros [? _]; congruence). reflexivity.
Qed.

Lemma getTotalVoxelCount_addVoxel (model : VmaxModel) (x y z m c ch cm : Z) :
  table_wf (voxels model) ->
  getTotalVoxelCount (addVoxel model x y z m c ch cm)
  = (getTotalVoxelCount model + if in_table m c then 1 else 0)%nat.
Proof.
  intros Hwf. unfold addVoxel. destruct (in_table m c) eqn:Hin; [|lia].
  apply in_table_range in Hin. rewrite !getTotalVoxelCount_sum. cbn [voxels].
  rewrite Nat.add_1_r.
  apply table_sum_bump; try assumption; try lia.
  - intros b. rewrite length_app. cbn. lia.
  - apply NoDup_seq.
  - apply NoDup_seq.
  - apply elem_of_seq. lia.
  - apply elem_of_seq. lia.
Qed.

Lemma addSnapshotVoxels_cons (chunkInfo : VmaxChunkInfo) (model : VmaxModel)
    (v : VmaxVoxel) (xs : list VmaxVoxel) :
  addSnapshotVoxels chunkInfo model (v :: xs)
  = addSnapshotVoxels chunkInfo
      (addVoxel model (v_x v) (v_y v) (v_z v) (v_material v) (v_palette v)
                (to_int (ci_id chunkInfo)) (to_int (ci_mortoncode chunkInfo)))
      xs.
Proof. reflexivity. Qed.

(** X7: [getTotalVoxelCount] counts exactly the voxels [addVoxel]
    accepted: adding the voxels of a snapshot raises it by the number of
    voxels whose material is in 0..7 and whose colour is in 1..255; no
    voxel is lost and none is counted twice. *)
Theorem getTotalVoxelCount_addSnapshotVoxels (chunkInfo : VmaxChunkInfo)
    (xvoxels : list VmaxVoxel) (model : VmaxModel) :
  table_wf (voxels model) ->
  getTotalVoxelCount (addSnapshotVoxels chunkInfo model xvoxels)
  = (getTotalVoxelCount model + length (filter accepted xvoxels))%nat.
Proof.
  revert model. induction xvoxels as [|v xs IH]; intros model Hwf.
  - rewrite filter_nil. cbn [length]. rewrite Nat.add_0_r. reflexivity.
  - rewrite addSnapshotVoxels_cons.
    rewrite IH by (apply table_wf_addVoxel, Hwf).
    rewrite getTotalVoxelCount_addVoxel by exact Hwf.
    rewrite filter_cons.
    destruct (decide (accepted v)) as [Hin|Hin]; unfold accepted in Hin.
    + rewrite Hin. cbn [length]. lia.
    + destruct (in_table (v_material v) (v_palette v)); [congruence | lia].
Qed.

Lemma getTotalVoxelCount_addSnapshotVoxels_witness :
  getTotalVoxelCount
    (addSnapshotVoxels (mkVmaxChunkInfo 0 4 0 0 0 0)
       (VmaxModel_new "contents1.vmaxb")
       [mkVmaxVoxel 0 0 0 1 5 0 0; mkVmaxVoxel 1 0 0 9 5 0 0])
  = (getTotalVoxelCount (VmaxModel_new "contents1.vmaxb")
     + length (filter accepted
                 [mkVmaxVoxel 0 0 0 1 5 0 0; mkVmaxVoxel 1 0 0 9 5 0 0]))%nat.
Proof.
  apply (getTotalVoxelCount_addSnapshotVoxels (mkVmaxChunkInfo 0 4 0 0 0 0)
           [mkVmaxVoxel 0 0 0 1 5 0 0; mkVmaxVoxel 1 0 0 9 5 0 0]
           (VmaxModel_new "contents1.vmaxb")).
  apply table_wf_new.
Defined.

(** ** Used materials and colours *)

Lemma used_colors_foldl (t : list (list (list VmaxVoxel))) (m : nat)
    (l : list nat) (acc : list Z) :
  foldl (fun colors color =>
           match bucket t m color with
           | [] => colors
           | _ :: _ => colors ++ [Z.of_nat color]
           end) acc l
  = acc ++ (Z.of_nat <$> filter (fun c => bucket t m c <> []) l).
Proof.
  revert acc. induction l as [|c l IH]; intros acc.
  - rewrite filter_nil. cbn. rewrite app_nil_r. reflexivity.
  - cbn [foldl]. rewrite IH, filter_cons.
    destruct (bucket t m c) as [|v b] eqn:Hb.
    + rewrite decide_False by (intros H; apply H; reflexivity). reflexivity.
    + rewrite decide_True by discriminate.
      rewrite fmap_cons, <- app_assoc. reflexivity.
Qed.

Lemma used_entries_foldl (model : VmaxModel) (l : list nat)
    (acc : list (Z * list Z)) :
  foldl (fun result material =>
           let colors :=
             foldl (fun colors color =>
                      match bucket (voxels model) material color with
                      | [] => colors
                      | _ :: _ => colors ++ [Z.of_nat color]
                      end)
                   [] (seq 1 255) in
           match colors with
           | [] => result
           | _ :: _ => result ++ [(Z.of_nat material, colors)]
           end) acc l
  = acc ++ omap (used_entry model) l.
Proof.
  revert acc. induction l as [|m l IH]; intros acc.
  - cbn [foldl omap]. rewrite app_nil_r. reflexivity.
  - cbn [foldl]. rewrite IH. cbn zeta. rewrite used_colors_foldl.
    rewrite app_nil_l. fold (used_colors model m).
    change (omap (used_entry model) (m :: l))
      with (match used_entry model m with
            | Some e => e :: omap (used_entry model) l
            | None => omap (used_entry model) l
            end).
    unfold used_entry.
    destruct (used_colors model m) as [|c cs]; [reflexivity|].
    rewrite fmap_cons, <- app_assoc. reflexivity.
Qed.

Lemma getUsedMaterialsAndColors_omap (model : VmaxModel) :
  getUsedMaterialsAndColors model = omap (used_entry model) (seq 0 8).
Proof. unfold getUsedMaterialsAndColors. apply used_entries_foldl. Qed.

Lemma getVoxels_bucket (model : VmaxModel) (i j : nat) :
  (i < 8)%nat -> (1 <= j < 256)%nat ->
  getVoxels model (Z.of_nat i) (Z.of_nat j) = bucket (voxels model) i j.
Proof.
  intros Hi Hj. unfold getVoxels.
  replace (in_table (Z.of_nat i) (Z.of_nat j)) with true
    by (symmetry; apply in_table_range; lia).
  rewrite !Nat2Z.id. reflexivity.
Qed.

Lemma used_entry_Some (model : VmaxModel) (i : nat) (m : Z) (colors : list Z) :
  used_entry model i = Some (m, colors) ->
  m = Z.of_nat i /\ colors = Z.of_nat <$> used_colors model i
  /\ colors <> [].
Proof.
  unfold used_entry. destruct (used_colors model i) as [|c cs]; [discriminate|].
  intros [= <- <-]. split; [reflexivity|]. split; [reflexivity | discriminate].
Qed.

Lemma used_colors_elem (model : VmaxModel) (i j : nat) :
  j ∈ used_colors model i
  <-> (1 <= j < 256)%nat /\ bucket (voxels model) i j <> [].
Proof.
  unfold used_colors. rewrite list_elem_of_filter, elem_of_seq. tauto.
Qed.

Lemma getUsedMaterialsAndColors_listed (model : VmaxModel) (m c : Z) :
  (exists colors, (m, colors) ∈ getUsedMaterialsAndColors model /\ c ∈ colors)
  <-> in_table m c = true /\ getVoxels model m c <> [].
Proof.
  rewrite getUsedMaterialsAndColors_omap. split.
  - intros (colors & Hin & Hc).
    apply list_elem_of_omap in Hin as (i & Hi & Hentry).
    apply used_entry_Some in Hentry as (-> & -> & _).
    apply list_elem_of_fmap in Hc as (j & -> & Hj).
    apply used_colors_elem in Hj as [Hj Hb]. apply elem_of_seq in Hi.
    split; [apply in_table_range; lia|].
    rewrite getVoxels_bucket by lia. exact Hb.
  - intros [Hin Hv]. apply in_table_range in Hin.
    assert (Hb : bucket (voxels model) (Z.to_nat m) (Z.to_nat c) <> []).
    { rewrite <- getVoxels_bucket by lia. rewrite !Z2Nat.id by lia. exact Hv. }
    assert (Hj : Z.to_nat c ∈ used_colors model (Z.to_nat m))
      by (apply used_colors_elem; split; [lia | exact Hb]).
    exists (Z.of_nat <$> used_colors model (Z.to_nat m)). split.
    + apply list_elem_of_omap. exists (Z.to_nat m).
      split; [apply elem_of_seq; lia|].
      unfold used_entry.
      destruct (used_colors model (Z.to_nat m)) as [|c0 cs];
        [inversion Hj|].
      rewrite Z2Nat.id by lia. reflexivity.
    + apply list_elem_of_fmap. exists (Z.to_nat c).
      split; [rewrite Z2Nat.id by lia; reflexivity | exact Hj].
Qed.

(** X8: [getUsedMaterialsAndColors] lists a colour under a material
    exactly when the material is in 0..7, the colour in 1..255 and the
    bucket of that material and colour holds a voxel; it has no entry
    with an empty set of colours. *)
Theorem getUsedMaterialsAndColors_spec (model : VmaxModel) :
  (forall m c,
     (exists colors, (m, colors) ∈ getUsedMaterialsAndColors model
                     /\ c ∈ colors)
     <-> in_table m c = true /\ getVoxels model m c <> [])
  /\ Forall (fun entry => entry.2 <> []) (getUsedMaterialsAndColors model).
Proof.
  split; [apply getUsedMaterialsAndColors_listed|].
  rewrite getUsedMaterialsAndColors_omap.
  apply Forall_forall. intros [m colors] Hin.
  apply list_elem_of_omap in Hin as (i & _ & Hentry).
  apply used_entry_Some in Hentry as (_ & _ & Hne). exact Hne.
Qed.


(** ** The composer's instancers ([vmaxtui.cpp], lines 612-693) *)

Lemma total_instances_cons (i : Instancer) (l : list Instancer) :
  total_instances (i :: l)
  = (length (inst_instances i) + total_instances l)%nat.
Proof. reflexivity. Qed.

Lemma total_instances_app (l1 l2 : list Instancer) :
  total_instances (l1 ++ l2)
  = (total_instances l1 + total_instances l2)%nat.
Proof.
  induction l1 as [|i l1 IH]; [reflexivity|].
  rewrite <- app_comm_cons, !total_instances_cons, IH. lia.
Qed.

Lemma colors_total_cons (model : VmaxModel) (m c : Z) (colors : list Z) :
  colors_total model m (c :: colors)
  = (length (getVoxels model m c) + colors_total model m colors)%nat.
Proof. reflexivity. Qed.

Lemma used_total_cons (model : VmaxModel) (m : Z) (colors : list Z)
    (used : list (Z * list Z)) :
  used_total model ((m, colors) :: used)
  = (colors_total model m colors + used_total model used)%nat.
Proof. reflexivity. Qed.

Lemma instancers_of_colors_ok (model : VmaxModel) (palette : list VmaxRGBA)
    (m : Z) (colors : list Z) :
  Forall (usable model palette m) colors ->
  exists instancers,
    instancers_of_colors model palette m colors = Returned instancers
    /\ total_instances instancers = colors_total model m colors
    /\ Forall (instancer_of model palette) instancers.
Proof.
  induction 1 as [|c colors ([rgba Hrgba] & Hin & Hne) _ IH].
  - exists []. repeat split. constructor.
  - destruct IH as (more & Hmore & Htotal & Hall).
    cbn [instancers_of_colors]. rewrite Hrgba. cbn zeta. rewrite Hmore.
    eexists. split; [reflexivity|]. split.
    + rewrite total_instances_cons, colors_total_cons, Htotal.
      cbn [inst_instances]. rewrite length_fmap. reflexivity.
    + constructor; [|exact Hall].
      unfold instancer_of. cbn [inst_material inst_color inst_rgba
                                  inst_instances].
      repeat split; try assumption.
      destruct (getVoxels model m c); [congruence | discriminate].
Qed.

Lemma instancers_of_used_ok (model : VmaxModel) (palette : list VmaxRGBA)
    (used : list (Z * list Z)) :
  Forall (fun entry => Forall (usable model palette entry.1) entry.2) used ->
  exists instancers,
    instancers_of_used model palette used = Returned instancers
    /\ total_instances instancers = used_total model used
    /\ Forall (instancer_of model palette) instancers.
Proof.
  induction 1 as [|[m colors] used Hentry _ IH].
  - exists []. repeat split. constructor.
  - destruct IH as (more & Hmore & Htotal & Hall).
    destruct (instancers_of_colors_ok model palette m colors Hentry)
      as (first & Hfirst & Hftotal & Hfall).
    cbn [instancers_of_used]. rewrite Hfirst, Hmore.
    eexists. split; [reflexivity|]. split.
    + rewrite total_instances_app, used_total_cons, Hftotal, Htotal.
      reflexivity.
    + apply Forall_app. split; assumption.
Qed.

Lemma instancers_of_colors_cases (model : VmaxModel)
    (palette : list VmaxRGBA) (m : Z) (colors : list Z) :
  Forall (fun c => 1 <= c) colors ->
  (exists instancers,
     instancers_of_colors model palette m colors = Returned instancers
     /\ Forall (fun c => is_Some (palette !! Z.to_nat (c - 1))) colors)
  \/ (exists i,
        instancers_of_colors model palette m colors = OutOfBounds i
        /\ Z.of_nat (length palette) <= i).
Proof.
  induction 1 as [|c colors Hc _ IH].
  - left. exists []. split; [reflexivity | constructor].
  - cbn [instancers_of_colors].
    destruct (palette !! Z.to_nat (c - 1)) as [rgba|] eqn:Hrgba.
    + cbn zeta. destruct IH as [(more & -> & Hall) | (i & -> & Hi)].
      * left. eexists. split; [reflexivity|].
        constructor; [rewrite Hrgba; eexists; reflexivity | exact Hall].
      * right. exists i. split; [reflexivity | exact Hi].
    + right. exists (c - 1). split; [reflexivity|].
      apply lookup_ge_None in Hrgba. lia.
Qed.

Lemma instancers_of_used_fails (model : VmaxModel) (palette : list VmaxRGBA)
    (used : list (Z * list Z)) :
  Forall (fun entry => Forall (fun c => 1 <= c) entry.2) used ->
  Exists (fun entry =>
            Exists (fun c => palette !! Z.to_nat (c - 1) = None) entry.2)
         used ->
  exists i,
    instancers_of_used model palette used = OutOfBounds i
    /\ Z.of_nat (length palette) <= i.
Proof.
  induction 1 as [|[m colors] used Hentry _ IH]; intros Hex;
    [inversion Hex|].
  cbn [instancers_of_used].
  destruct (instancers_of_colors_cases model palette m colors Hentry)
    as [(first & -> & Hall) | (i & -> & Hi)].
  - apply Exists_cons in Hex as [Hhere | Hlater].
    + exfalso. cbn [snd] in Hhere.
      apply Exists_exists in Hhere as (c & Hc & Hnone).
      rewrite Forall_forall in Hall. destruct (Hall c Hc) as [rgba Hrgba].
      congruence.
    + destruct (IH Hlater) as (i & -> & Hi). exists i. split;
        [reflexivity | exact Hi].
  - exists i. split; [reflexivity | exact Hi].
Qed.

Lemma sum_filter_nonempty {A B : Type} (g : A -> list B) (l : list A) :
  sum_list ((fun c => length (g c)) <$> filter (fun c => g c <> []) l)
  = sum_list ((fun c => length (g c)) <$> l).
Proof.
  induction l as [|c l IH]; [reflexivity|].
  rewrite filter_cons. destruct (decide (g c <> [])) as [Hne|He].
  - rewrite !fmap_cons. cbn [sum_list_with]. rewrite IH. reflexivity.
  - rewrite fmap_cons. cbn [sum_list_with]. rewrite IH.
    destruct (g c); [reflexivity | exfalso; apply He; discriminate].
Qed.

Lemma colors_total_used (model : VmaxModel) (i : nat) :
  (i < 8)%nat ->
  colors_total model (Z.of_nat i) (Z.of_nat <$> used_colors model i)
  = sum_list ((fun c => length (bucket (voxels model) i c)) <$> seq 1 255).
Proof.
  intros Hi. unfold colors_total. rewrite <- list_fmap_compose.
  transitivity
    (sum_list ((fun c => length (bucket (voxels model) i c))
               <$> used_colors model i)).
  - f_equal. apply Forall_fmap_ext, Forall_forall. intros c Hc.
    apply used_colors_elem in Hc as [Hc _]. cbn.
    rewrite getVoxels_bucket by lia. reflexivity.
  - unfold used_colors.
    apply (sum_filter_nonempty (fun c => bucket (voxels model) i c)).
Qed.

Lemma used_entry_None (model : VmaxModel) (i : nat) :
  used_entry model i = None -> used_colors model i = [].
Proof.
  unfold used_entry.
  destruct (used_colors model i); [reflexivity | discriminate].
Qed.

Lemma used_total_omap (model : VmaxModel) (l : list nat) :
  Forall (fun i => (i < 8)%nat) l ->
  used_total model (omap (used_entry model) l)
  = sum_list ((fun m => sum_list ((fun c => length (bucket (voxels model) m c))
                                  <$> seq 1 255))
              <$> l).
Proof.
  induction 1 as [|i l Hi _ IH]; [reflexivity|].
  change (omap (used_entry model) (i :: l))
    with (match used_entry model i with
          | Some e => e :: omap (used_entry model) l
          | None => omap (used_entry model) l
          end).
  rewrite fmap_cons. cbn [sum_list_with].
  rewrite <- (colors_total_used model i Hi), <- IH.
  destruct (used_entry model i) as [[m colors]|] eqn:Hentry.
  - apply used_entry_Some in Hentry as (-> & -> & _).
    apply used_total_cons.
  - rewrite (used_entry_None model i Hentry). reflexivity.
Qed.

Lemma used_total_count (model : VmaxModel) :
  used_total model (getUsedMaterialsAndColors model)
  = getTotalVoxelCount model.
Proof.
  rewrite getUsedMaterialsAndColors_omap, getTotalVoxelCount_sum.
  apply used_total_omap, Forall_forall. intros i Hi.
  apply elem_of_seq in Hi. lia.
Qed.

Lemma used_usable (model : VmaxModel) (palette : list VmaxRGBA) :
  (255 <= length palette)%nat ->
  Forall (fun entry => Forall (usable model palette entry.1) entry.2)
         (getUsedMaterialsAndColors model).
Proof.
  intros Hlen. apply Forall_forall. intros [m colors] Hentry.
  apply Forall_forall. intros c Hc. cbn [fst snd] in *.
  assert (Hlisted : in_table m c = true /\ getVoxels model m c <> [])
    by (apply getUsedMaterialsAndColors_listed; exists colors; split;
        assumption).
  destruct Hlisted as [Hin Hne].
  split; [|split; assumption].
  apply lookup_lt_is_Some. apply in_table_range in Hin. lia.
Qed.

(** X9: with a palette of at least 255 entries [addModelToScene] reads
    the palette in bounds only and makes one instancer per non-empty
    bucket: each carries the palette entry [color - 1] and one instance
    per voxel of its bucket, none is empty, and together they carry as
    many instances as [getTotalVoxelCount] counts voxels. *)
Theorem addModelToScene_instances_all_voxels (model : VmaxModel)
    (palette : list VmaxRGBA) :
  (255 <= length palette)%nat ->
  exists instancers,
    addModelToScene_instancers model palette = Returned instancers
    /\ total_instances instancers = getTotalVoxelCount model
    /\ Forall (instancer_of model palette) instancers.
Proof.
  intros Hlen. unfold addModelToScene_instancers.
  rewrite <- used_total_count. apply instancers_of_used_ok, used_usable, Hlen.
Qed.

Lemma addModelToScene_instances_all_voxels_witness :
  exists instancers,
    addModelToScene_instancers
      (addVoxel (VmaxModel_new "scene.vmaxb") 1 2 3 0 5 0 0)
      (replicate 256 (mkVmaxRGBA 10 20 30 255))
    = Returned instancers
    /\ total_instances instancers
       = getTotalVoxelCount
           (addVoxel (VmaxModel_new "scene.vmaxb") 1 2 3 0 5 0 0)
    /\ Forall (instancer_of
                 (addVoxel (VmaxModel_new "scene.vmaxb") 1 2 3 0 5 0 0)
                 (replicate 256 (mkVmaxRGBA 10 20 30 255)))
              instancers.
Proof.
  apply addModelToScene_instances_all_voxels.
  rewrite length_replicate. lia.
Defined.

Lemma used_colors_positive (model : VmaxModel) :
  Forall (fun entry => Forall (fun c => 1 <= c) entry.2)
         (getUsedMaterialsAndColors model).
Proof.
  apply Forall_forall. intros [m colors] Hentry.
  apply Forall_forall. intros c Hc. cbn [snd] in Hc.
  assert (Hlisted : in_table m c = true /\ getVoxels model m c <> [])
    by (apply getUsedMaterialsAndColors_listed; exists colors; split;
        assumption).
  destruct Hlisted as [Hin _]. apply in_table_range in Hin. lia.
Qed.

(** X10: when a bucket of colour [c] holds a voxel and the palette has
    fewer than [c] entries, [addModelToScene] indexes the palette vector
    at or beyond its end. *)
Theorem addModelToScene_narrow_palette (model : VmaxModel)
    (palette : list VmaxRGBA) (m c : Z) :
  in_table m c = true ->
  getVoxels model m c <> [] ->
  Z.of_nat (length palette) < c ->
  exists i,
    addModelToScene_instancers model palette = OutOfBounds i
    /\ Z.of_nat (length palette) <= i.
Proof.
  intros Hin Hne Hlen. unfold addModelToScene_instancers.
  destruct (proj2 (getUsedMaterialsAndColors_listed model m c) (conj Hin Hne))
    as (colors & Hentry & Hc).
  apply instancers_of_used_fails; [apply used_colors_positive|].
  apply Exists_exists. exists (m, colors). split; [exact Hentry|].
  apply Exists_exists. exists c. split; [exact Hc|].
  apply lookup_ge_None. lia.
Qed.

Lemma addModelToScene_narrow_palette_witness :
  exists i,
    addModelToScene_instancers
      (addVoxel (VmaxModel_new "scene.vmaxb") 1 2 3 0 5 0 0)
      (replicate 2 (mkVmaxRGBA 10 20 30 255))
    = OutOfBounds i
    /\ Z.of_nat (length (replicate 2 (mkVmaxRGBA 10 20 30 255))) <= i.
Proof.
  apply (addModelToScene_narrow_palette _ _ 0 5).
  - reflexivity.
  - vm_compute. discriminate.
  - vm_compute. reflexivity.
Defined.

(** ** Suffix test ([oomer_filequeue.h], lines 231-236) *)

Lemma append_String (c : Ascii.ascii) (s1 s2 : string) :
  String c s1 +:+ s2 = String c (s1 +:+ s2).
Proof. reflexivity. Qed.

Lemma append_empty (s : string) : "" +:+ s = s.
Proof. reflexivity. Qed.

Lemma string_length_append (s1 s2 : string) :
  String.length (s1 +:+ s2) = (String.length s1 + String.length s2)%nat.
Proof.
  induction s1 as [|c s1 IH]; [reflexivity|].
  rewrite append_String. cbn. rewrite IH. reflexivity.
Qed.

Lemma substring_all (s : string) : String.substring 0 (String.length s) s = s.
Proof. induction s as [|c s IH]; cbn; [reflexivity | rewrite IH; reflexivity]. Qed.

Lemma substring_append_suffix (pre suf : string) :
  String.substring (String.length pre) (String.length suf) (pre +:+ suf) = suf.
Proof.
  induction pre as [|c pre IH].
  - rewrite append_empty. apply substring_all.
  - rewrite append_String. cbn. exact IH.
Qed.

Lemma substring_split (s : string) :
  forall k : nat,
    (k <= String.length s)%nat ->
    s = String.substring 0 k s +:+ String.substring k (String.length s - k) s.
Proof.
  induction s as [|c s IH]; intros k Hk.
  - cbn in Hk. replace k with 0%nat by lia. reflexivity.
  - destruct k as [|k].
    + cbn. rewrite append_empty, substring_all. reflexivity.
    + cbn in Hk. cbn. rewrite append_String. f_equal. apply IH. lia.
Qed.

(** X11: [endsWith str suffix] holds exactly when [str] is some string
    followed by [suffix]. *)
Theorem endsWith_spec (str suffix : string) :
  endsWith str suffix = true <-> exists pre, str = pre +:+ suffix.
Proof.
  unfold endsWith.
  destruct (Nat.ltb_spec (String.length str) (String.length suffix)) as [Hlt|Hge].
  - split; [discriminate|]. intros [pre ->].
    rewrite string_length_append in Hlt. lia.
  - rewrite String.eqb_eq. split.
    + intros Hsub.
      exists (String.substring 0 (String.length str - String.length suffix) str).
      rewrite (substring_split str (String.length str - String.length suffix))
        at 1 by lia.
      f_equal.
      replace (String.length str - (String.length str - String.length suffix))%nat
        with (String.length suffix) by lia.
      exact Hsub.
    + intros [pre ->]. rewrite string_length_append.
      replace (String.length pre + String.length suffix - String.length suffix)%nat
        with (String.length pre) by lia.
      apply substring_append_suffix.
Qed.

(** ** File queue: contracts of [remove] and of the transfer loop *)

Lemma queue_absent (q : FileQueue) (path : string) :
  queue_inv q -> pathMap q !! path = None <-> path ∉ pathVector q.
Proof.
  intros [_ Hdom]. rewrite <- not_elem_of_dom, Hdom, elem_of_list_to_set.
  reflexivity.
Qed.

Lemma contains_elem (q : FileQueue) (path : string) :
  queue_inv q -> FQ.contains q path = true <-> path ∈ pathVector q.
Proof.
  intros Hinv. unfold FQ.contains.
  destruct (pathMap q !! path) as [b|] eqn:Hlook.
  - split; [intros _ | reflexivity].
    destruct (decide (path ∈ pathVector q)) as [Hin|Hout]; [exact Hin|].
    apply (queue_absent q path Hinv) in Hout. congruence.
  - apply (queue_absent q path Hinv) in Hlook.
    split; [discriminate | intros Hin; contradiction].
Qed.

Lemma filter_all {A : Type} (P : A -> Prop) `{!forall x, Decision (P x)}
    (l : list A) :
  (forall x, x ∈ l -> P x) -> filter P l = l.
Proof.
  induction l as [|x l IH]; intros Hall; [reflexivity|].
  rewrite filter_cons, decide_True by (apply Hall; left).
  rewrite IH; [reflexivity|]. intros y Hy. apply Hall. right. exact Hy.
Qed.

Lemma filter_same {A : Type} (P Q : A -> Prop) `{!forall x, Decision (P x)}
    `{!forall x, Decision (Q x)} (l : list A) :
  (forall x, x ∈ l -> P x <-> Q x) -> filter P l = filter Q l.
Proof.
  induction l as [|x l IH]; intros Hall; [reflexivity|].
  rewrite !filter_cons.
  rewrite IH by (intros y Hy; apply Hall; right; exact Hy).
  assert (Hx : P x <-> Q x) by (apply Hall; left).
  destruct (decide (P x)) as [HP|HP], (decide (Q x)) as [HQ|HQ];
    try reflexivity; tauto.
Qed.

Lemma length_filter_other (l : list string) (path : string) :
  NoDup l -> path ∈ l ->
  S (length (filter (fun p => p <> path) l)) = length l.
Proof.
  induction 1 as [|x l Hx Hnd IH]; intros Hin; [inversion Hin|].
  rewrite filter_cons. destruct (decide (x <> path)) as [Hne|Heq].
  - cbn [length]. rewrite IH; [reflexivity|].
    apply elem_of_cons in Hin as [->|Hin]; [contradiction | exact Hin].
  - assert (x = path) as -> by (destruct (decide (x = path)); tauto).
    rewrite filter_all by (intros y Hy ->; contradiction). reflexivity.
Qed.

(** X12: on a queue whose two containers agree, [remove path] answers
    whether the path was queued; afterwards the path is not queued, the
    other paths are queued as before and in the same order, and the
    queue is shorter by one exactly when the answer is [true]. *)
Theorem remove_contract (q : FileQueue) (path : string) :
  queue_inv q ->
  (FQ.remove q path).1 = FQ.contains q path
  /\ FQ.contains (FQ.remove q path).2 path = false
  /\ (forall other, other <> path ->
        FQ.contains (FQ.remove q path).2 other = FQ.contains q other)
  /\ pathVector (FQ.remove q path).2
     = filter (fun p => p <> path) (pathVector q)
  /\ (FQ.size (FQ.remove q path).2
      + (if FQ.contains q path then 1 else 0))%nat = FQ.size q.
Proof.
  intros Hinv. unfold FQ.remove, FQ.contains, FQ.size.
  destruct (pathMap q !! path) as [b|] eqn:Hlook; cbn [fst snd pathVector pathMap].
  - split; [reflexivity|]. split; [rewrite lookup_delete_eq; reflexivity|].
    split; [intros other Hne; rewrite lookup_delete_ne by congruence;
            reflexivity|].
    split; [reflexivity|].
    rewrite Nat.add_1_r. apply length_filter_other; [apply Hinv|].
    apply (contains_elem q path Hinv). unfold FQ.contains. rewrite Hlook.
    reflexivity.
  - split; [reflexivity|]. rewrite Hlook. split; [reflexivity|].
    split; [reflexivity|]. split; [|lia].
    symmetry. apply filter_all. intros x Hx ->.
    apply (queue_absent q path Hinv) in Hlook. contradiction.
Qed.

Lemma remove_contract_witness :
  (FQ.remove (FQ.push (FQ.push FQ.new "a.bsz").2 "b.bsz").2 "a.bsz").1
  = FQ.contains (FQ.push (FQ.push FQ.new "a.bsz").2 "b.bsz").2 "a.bsz"
  /\ pathVector
       (FQ.remove (FQ.push (FQ.push FQ.new "a.bsz").2 "b.bsz").2 "a.bsz").2
     = ["b.bsz"].
Proof.
  destruct (remove_contract (FQ.push (FQ.push FQ.new "a.bsz").2 "b.bsz").2
                            "a.bsz") as (H1 & _ & _ & H4 & _).
  - apply queue_inv_push, queue_inv_push, queue_inv_new.
  - split; [exact H1 | rewrite H4; vm_compute; reflexivity].
Defined.

(** X13: pushing a path that is not queued and removing it again gives
    back the queue, both containers included. *)
Theorem push_remove_round_trip (q : FileQueue) (path : string) :
  queue_inv q ->
  FQ.contains q path = false ->
  FQ.push q path = (true, (FQ.push q path).2)
  /\ FQ.remove (FQ.push q path).2 path = (true, q).
Proof.
  intros Hinv Hfresh. unfold FQ.contains in Hfresh. unfold FQ.push.
  destruct (pathMap q !! path) as [b|] eqn:Hlook; [discriminate|].
  split; [reflexivity|]. cbn [snd]. unfold FQ.remove.
  cbn [pathMap pathVector]. rewrite lookup_insert_eq.
  rewrite delete_insert_id by exact Hlook.
  rewrite filter_app, filter_cons, filter_nil.
  rewrite decide_False by (intros Hne; apply Hne; reflexivity).
  rewrite app_nil_r, filter_all; [destruct q; reflexivity|].
  intros x Hx ->. apply (queue_absent q path Hinv) in Hlook. contradiction.
Qed.

Lemma push_remove_round_trip_witness :
  FQ.push (FQ.push FQ.new "a.bsz").2 "b.bsz"
  = (true, (FQ.push (FQ.push FQ.new "a.bsz").2 "b.bsz").2)
  /\ FQ.remove (FQ.push (FQ.push FQ.new "a.bsz").2 "b.bsz").2 "b.bsz"
     = (true, (FQ.push FQ.new "a.bsz").2).
Proof.
  apply push_remove_round_trip.
  - apply queue_inv_push, queue_inv_new.
  - vm_compute. reflexivity.
Defined.

Lemma drain_spec (fuel : nat) :
  forall src dst : FileQueue,
    queue_inv src -> queue_inv dst ->
    length (pathVector src) = fuel ->
    pathVector (drain fuel src dst).1 = []
    /\ pathMap (drain fuel src dst).1 = ∅
    /\ pathVector (drain fuel src dst).2
       = pathVector dst
         ++ filter (fun p => p ∉ pathVector dst) (pathVector src)
    /\ queue_inv (drain fuel src dst).2.
Proof.
  induction fuel as [|fuel IH]; intros src dst Hsrc Hdst Hlen.
  - cbn [drain fst snd]. apply nil_length_inv in Hlen.
    split; [exact Hlen|]. split.
    + apply dom_empty_inv_L. destruct Hsrc as [_ ->]. rewrite Hlen.
      reflexivity.
    + rewrite Hlen, filter_nil, app_nil_r. split; [reflexivity | exact Hdst].
  - cbn [drain]. pose proof (queue_inv_pop src Hsrc) as Hpop.
    unfold FQ.pop in *.
    destruct (pathVector src) as [|path rest] eqn:Hvec; [discriminate|].
    cbn [snd] in Hpop.
    destruct (IH (mkFileQueue rest (delete path (pathMap src)))
                 (FQ.push dst path).2 Hpop (queue_inv_push dst path Hdst))
      as (H1 & H2 & H3 & H4); [cbn in *; lia|].
    split; [exact H1|]. split; [exact H2|]. split; [|exact H4].
    rewrite H3. cbn [pathVector]. rewrite filter_cons.
    destruct Hsrc as [Hnd _]. rewrite Hvec in Hnd.
    apply NoDup_cons in Hnd as [Hfresh _].
    unfold FQ.push. destruct (pathMap dst !! path) as [b|] eqn:Hlook.
    + cbn [snd]. rewrite decide_False; [reflexivity|].
      intros Hout. apply (queue_absent dst path Hdst) in Hout. congruence.
    + cbn [snd pathVector].
      rewrite decide_True by (apply (queue_absent dst path Hdst); exact Hlook).
      rewrite <- app_assoc. cbn [app]. do 2 f_equal.
      apply filter_same. intros x Hx. rewrite elem_of_app, list_elem_of_singleton.
      split; [tauto|]. intros Hout [Hin | ->]; contradiction.
Qed.

(** X14: the transfer loop [while (src.pop(path)) dst.push(path)], on
    queues whose containers agree, ends after as many rounds as the
    source has paths: the source is then empty in both containers, and
    the destination holds its old paths followed by the paths of the
    source it did not hold, in the order of the source, with its
    containers still in agreement. *)
Theorem drain_moves_new_paths_in_order (src dst : FileQueue) :
  queue_inv src -> queue_inv dst ->
  FQ.pop (drain (FQ.size src) src dst).1
  = (None, mkFileQueue [] ∅)
  /\ pathVector (drain (FQ.size src) src dst).2
     = pathVector dst ++ filter (fun p => p ∉ pathVector dst) (pathVector src)
  /\ queue_inv (drain (FQ.size src) src dst).2.
Proof.
  intros Hsrc Hdst.
  destruct (drain_spec (FQ.size src) src dst Hsrc Hdst eq_refl)
    as (H1 & H2 & H3 & H4).
  split; [|split; assumption].
  unfold FQ.pop. rewrite H1. f_equal.
  destruct (drain (FQ.size src) src dst).1 as [v m]. cbn in H1, H2.
  subst. reflexivity.
Qed.

Lemma drain_moves_new_paths_in_order_witness :
  FQ.pop (drain (FQ.size (FQ.push (FQ.push FQ.new "a.bsz").2 "b.bsz").2)
                (FQ.push (FQ.push FQ.new "a.bsz").2 "b.bsz").2
                (FQ.push FQ.new "a.bsz").2).1
  = (None, mkFileQueue [] ∅)
  /\ pathVector
       (drain (FQ.size (FQ.push (FQ.push FQ.new "a.bsz").2 "b.bsz").2)
              (FQ.push (FQ.push FQ.new "a.bsz").2 "b.bsz").2
              (FQ.push FQ.new "a.bsz").2).2
     = ["a.bsz"; "b.bsz"].
Proof.
  destruct (drain_moves_new_paths_in_order
              (FQ.push (FQ.push FQ.new "a.bsz").2 "b.bsz").2
              (FQ.push FQ.new "a.bsz").2) as (H1 & H2 & _).
  - apply queue_inv_push, queue_inv_push, queue_inv_new.
  - apply queue_inv_push, queue_inv_new.
  - split; [exact H1 | rewrite H2; vm_compute; reflexivity].
Defined.

(** ** Watch dispatcher: what the shared queues can hold *)

Lemma handleFileAction_delete (g : Queues) (dir filename : string) :
  handleFileAction false g dir filename Delete
  = if endsWith (dir +:+ filename) ".bsz"
       && negb (FQ.contains (unfileQueue g) (dir +:+ filename))
    then mkQueues (fileQueue g) (FQ.push (unfileQueue g) (dir +:+ filename)).2
    else g.
Proof.
  unfold handleFileAction; cbn.
  destruct (endsWith (dir +:+ filename) ".bsz"),
           (FQ.contains (unfileQueue g) (dir +:+ filename)); reflexivity.
Qed.

Lemma push_vector (q : FileQueue) (path : string) :
  pathVector (FQ.push q path).2 = pathVector q
  \/ pathVector (FQ.push q path).2 = pathVector q ++ [path].
Proof.
  unfold FQ.push. destruct (pathMap q !! path); [left | right]; reflexivity.
Qed.

Lemma push_Forall (P : string -> Prop) (q : FileQueue) (path : string) :
  P path -> Forall P (pathVector q) -> Forall P (pathVector (FQ.push q path).2).
Proof.
  intros Hp Hq. destruct (push_vector q path) as [-> | ->]; [exact Hq|].
  apply Forall_app. split; [exact Hq | repeat constructor; exact Hp].
Qed.

Lemma push_prefix (q : FileQueue) (path : string) :
  pathVector q `prefix_of` pathVector (FQ.push q path).2.
Proof.
  destruct (push_vector q path) as [-> | ->];
    [reflexivity | apply prefix_app_r; reflexivity].
Qed.

Lemma handleFileAction_step (should_stop_ : bool) (g : Queues)
    (dir filename : string) (action : Action) :
  queues_ok g ->
  queues_ok (handleFileAction should_stop_ g dir filename action)
  /\ pathVector (fileQueue g)
     `prefix_of` pathVector (fileQueue (handleFileAction should_stop_ g dir
                                                          filename action))
  /\ pathVector (unfileQueue g)
     `prefix_of` pathVector (unfileQueue (handleFileAction should_stop_ g dir
                                                            filename action)).
Proof.
  intros Hok.
  assert (Hsame : queues_ok g
                  /\ pathVector (fileQueue g) `prefix_of` pathVector (fileQueue g)
                  /\ pathVector (unfileQueue g)
                     `prefix_of` pathVector (unfileQueue g))
    by (split; [exact Hok | split; reflexivity]).
  destruct should_stop_; [exact Hsame|].
  destruct Hok as (Hf & Hu & Hfs & Hus).
  destruct action.
  - rewrite handleFileAction_add by (left; reflexivity).
    destruct (_ && negb _) eqn:Hcond; [|exact Hsame].
    apply andb_true_iff in Hcond as [Hsuffix _].
    split; [|split; [apply push_prefix | reflexivity]].
    split; [apply queue_inv_push, Hf|]. split; [exact Hu|].
    split; [|exact Hus]. apply push_Forall; [|exact Hfs].
    unfold watched_suffix.
    destruct (endsWith (dir +:+ filename) ".vmax"),
             (endsWith (dir +:+ filename) ".bsz"),
             (endsWith (dir +:+ filename) ".zip"); auto.
  - rewrite handleFileAction_delete.
    destruct (_ && negb _) eqn:Hcond; [|exact Hsame].
    apply andb_true_iff in Hcond as [Hsuffix _].
    split; [|split; [reflexivity | apply push_prefix]].
    split; [exact Hf|]. split; [apply queue_inv_push, Hu|].
    split; [exact Hfs|]. apply push_Forall; [exact Hsuffix | exact Hus].
  - rewrite handleFileAction_add by (right; reflexivity).
    destruct (_ && negb _) eqn:Hcond; [|exact Hsame].
    apply andb_true_iff in Hcond as [Hsuffix _].
    split; [|split; [apply push_prefix | reflexivity]].
    split; [apply queue_inv_push, Hf|]. split; [exact Hu|].
    split; [|exact Hus]. apply push_Forall; [|exact Hfs].
    unfold watched_suffix.
    destruct (endsWith (dir +:+ filename) ".vmax"),
             (endsWith (dir +:+ filename) ".bsz"),
             (endsWith (dir +:+ filename) ".zip"); auto.
  - exact Hsame.
  - exact Hsame.
Qed.

(** X15: whatever callbacks the watcher makes, the listener only adds
    to the two shared queues: the paths already queued stay in front in
    their order, the two containers of each queue stay in agreement,
    every path of the add queue ends in [.vmax], [.bsz] or [.zip] and
    every path of the delete queue ends in [.bsz]. *)
Theorem handleFileAction_all_keeps_queues
    (events : list (string * string * Action)) (g : Queues) :
  queues_ok g ->
  queues_ok (handleFileAction_all events g)
  /\ pathVector (fileQueue g)
     `prefix_of` pathVector (fileQueue (handleFileAction_all events g))
  /\ pathVector (unfileQueue g)
     `prefix_of` pathVector (unfileQueue (handleFileAction_all events g)).
Proof.
  revert g. induction events as [|[[dir filename] action] events IH];
    intros g Hok.
  - split; [exact Hok | split; reflexivity].
  - destruct (handleFileAction_step false g dir filename action Hok)
      as (Hok' & Hf & Hu).
    destruct (IH _ Hok') as (Hok'' & Hf' & Hu').
    split; [exact Hok''|].
    split; etransitivity; eassumption.
Qed.

Lemma handleFileAction_all_keeps_queues_witness :
  queues_ok (handleFileAction_all
               [("/watch/", "a.vmax", Add); ("/watch/", "a.bsz", Delete);
                ("/watch/", "notes.txt", Modified)]
               (mkQueues FQ.new FQ.new))
  /\ pathVector (fileQueue (mkQueues FQ.new FQ.new))
     `prefix_of`
     pathVector (fileQueue
                   (handleFileAction_all
                      [("/watch/", "a.vmax", Add); ("/watch/", "a.bsz", Delete);
                       ("/watch/", "notes.txt", Modified)]
                      (mkQueues FQ.new FQ.new)))
  /\ pathVector (unfileQueue (mkQueues FQ.new FQ.new))
     `prefix_of`
     pathVector (unfileQueue
                   (handleFileAction_all
                      [("/watch/", "a.vmax", Add); ("/watch/", "a.bsz", Delete);
                       ("/watch/", "notes.txt", Modified)]
                      (mkQueues FQ.new FQ.new))).
Proof.
  apply handleFileAction_all_keeps_queues.
  split; [apply queue_inv_new|]. split; [apply queue_inv_new|].
  split; constructor.
Defined.

(** ** Render loop: which file a pass takes, and what never happens *)

Lemma pop_cons (q : FileQueue) (path : string) (rest : list string) :
  pathVector q = path :: rest ->
  FQ.pop q = (Some path, mkFileQueue rest (delete path (pathMap q)))
  /\ FQ.empty q = false.
Proof. unfold FQ.pop, FQ.empty. intros ->. split; reflexivity. Qed.

(** X16: a pass of the loop that finds the render slot free takes the
    oldest path: the head of the render queue, or, if that is empty,
    the first path the watcher queued.  It takes the slot, empties the
    shared add queue, loads and starts a [.bsz], converts a [.vmax], and
    does nothing more for any other path. *)
Theorem pass_takes_oldest (s : WatchState) (belPath : string)
    (rest : list string) :
  queue_inv (renderQueue s) ->
  queue_inv (fileQueue (queues s)) ->
  active_render s = false ->
  pathVector (renderQueue s)
  ++ filter (fun p => p ∉ pathVector (renderQueue s))
            (pathVector (fileQueue (queues s)))
  = belPath :: rest ->
  pathVector (renderQueue (DL_main_iteration s)) = rest
  /\ active_render (DL_main_iteration s) = true
  /\ pathVector (fileQueue (queues (DL_main_iteration s))) = []
  /\ engine_calls (DL_main_iteration s)
     = engine_calls s
       ++ (if endsWith belPath ".bsz"
           then [LoadScene belPath; SetResolution 200 200; Start] else [])
  /\ conversions (DL_main_iteration s)
     = conversions s
       ++ (if endsWith belPath ".bsz" then []
           else if endsWith belPath ".vmax" then [belPath] else []).
Proof.
  intros Hrq Hfq Hact Hhead. unfold DL_main_iteration.
  destruct (drain_spec (FQ.size (fileQueue (queues s))) (fileQueue (queues s))
                       (renderQueue s) Hfq Hrq eq_refl) as (_ & _ & Hvec & _).
  rewrite Hhead in Hvec.
  destruct (drain (FQ.size (fileQueue (queues s))) (fileQueue (queues s))
                  (renderQueue s)) as [fq rq].
  cbn [snd] in Hvec.
  destruct (drain (FQ.size (unfileQueue (queues s))) (unfileQueue (queues s))
                  (if FQ.empty (renderQueue s) then FQ.clear (renderUnqueue s)
                   else renderUnqueue s)) as [ufq ruq].
  destruct (pop_cons rq belPath rest Hvec) as [-> ->].
  rewrite Hact. cbn [negb Bool.eqb default from_option]. unfold id.
  destruct (endsWith belPath ".bsz");
    [|destruct (endsWith belPath ".vmax")];
    cbn [renderQueue active_render queues fileQueue engine_calls conversions
         pathVector FQ.clear];
    rewrite ?app_nil_r; repeat split; reflexivity.
Qed.

Lemma pass_takes_oldest_witness :
  pathVector
    (renderQueue
       (DL_main_iteration
          (watcher_event "/watch/" "b.bsz" Add
             (watcher_event "/watch/" "a.vmax" Add initial_state))))
  = ["/watch/b.bsz"]
  /\ conversions
       (DL_main_iteration
          (watcher_event "/watch/" "b.bsz" Add
             (watcher_event "/watch/" "a.vmax" Add initial_state)))
     = ["/watch/a.vmax"].
Proof.
  destruct (pass_takes_oldest
              (watcher_event "/watch/" "b.bsz" Add
                 (watcher_event "/watch/" "a.vmax" Add initial_state))
              "/watch/a.vmax" ["/watch/b.bsz"])
    as (H1 & _ & _ & _ & H5).
  - apply queue_inv_new.
  - change (queue_inv
              (FQ.push (FQ.push FQ.new "/watch/a.vmax").2 "/watch/b.bsz").2).
    apply queue_inv_push, queue_inv_push, queue_inv_new.
  - reflexivity.
  - vm_compute. reflexivity.
  - split; [exact H1 | rewrite H5; reflexivity].
Defined.

Lemma handleFileAction_unfile_paths (g : Queues) (dir filename : string)
    (action : Action) (p : string) :
  p ∈ pathVector (unfileQueue (handleFileAction false g dir filename action)) ->
  p ∈ pathVector (unfileQueue g) \/ endsWith p ".bsz" = true.
Proof.
  destruct action.
  - rewrite handleFileAction_add by (left; reflexivity).
    destruct (_ && negb _); auto.
  - rewrite handleFileAction_delete.
    destruct (endsWith (dir +:+ filename) ".bsz") eqn:Hsuffix; [|auto].
    destruct (negb _); [|auto]. cbn [andb unfileQueue].
    destruct (push_vector (unfileQueue g) (dir +:+ filename)) as [-> | ->];
      [auto|].
    intros Hp. apply elem_of_app in Hp as [Hp|Hp]; [auto|].
    apply list_elem_of_singleton in Hp. subst. auto.
  - rewrite handleFileAction_add by (right; reflexivity).
    destruct (_ && negb _); auto.
  - auto.
  - auto.
Qed.

Lemma pop_deletes_frame (fuel : nat) :
  forall s : WatchState,
    "" ∉ pathVector (renderUnqueue s) ->
    engine_calls (pop_deletes fuel "" s) = engine_calls s
    /\ active_render (pop_deletes fuel "" s) = active_render s
    /\ conversions (pop_deletes fuel "" s) = conversions s
    /\ queues (pop_deletes fuel "" s) = queues s
    /\ ("" ∉ pathVector (renderUnqueue (pop_deletes fuel "" s))).
Proof.
  induction fuel as [|fuel IH]; intros s Hs; cbn [pop_deletes]; [auto|].
  unfold FQ.pop. destruct (pathVector (renderUnqueue s)) as [|path rest] eqn:Hv;
    [rewrite Hv; auto|].
  assert (Hpath : String.eqb path "" = false).
  { apply String.eqb_neq. intros ->. apply Hs. left. }
  assert (Hrest : "" ∉ rest) by (intros Hin; apply Hs; right; exact Hin).
  rewrite Hpath.
  destruct (FQ.contains (renderQueue s) path);
    match goal with |- context [pop_deletes fuel "" ?s'] =>
      destruct (IH s' Hrest) as (-> & -> & -> & -> & H5) end; auto.
Qed.

Lemma iteration_frame (s : WatchState) :
  active_render s = true ->
  "" ∉ pathVector (renderUnqueue s) ->
  "" ∉ pathVector (unfileQueue (queues s)) ->
  engine_calls (DL_main_iteration s) = engine_calls s
  /\ active_render (DL_main_iteration s) = true
  /\ conversions (DL_main_iteration s) = conversions s
  /\ ("" ∉ pathVector (renderUnqueue (DL_main_iteration s)))
  /\ ("" ∉ pathVector (unfileQueue (queues (DL_main_iteration s)))).
Proof.
  intros Hact Hunq Hunf. unfold DL_main_iteration.
  destruct (drain (FQ.size (fileQueue (queues s))) (fileQueue (queues s))
                  (renderQueue s)) as [fq rq].
  destruct (drain (FQ.size (unfileQueue (queues s))) (unfileQueue (queues s))
                  (if FQ.empty (renderQueue s) then FQ.clear (renderUnqueue s)
                   else renderUnqueue s)) as [ufq ruq] eqn:Hdrain.
  assert (Hruq : "" ∉ pathVector ruq).
  { intros Hin. change ruq with (ufq, ruq).2 in Hin. rewrite <- Hdrain in Hin.
    apply drain_paths in Hin as [Hin|Hin]; [|auto].
    destruct (FQ.empty (renderQueue s)); [inversion Hin | auto]. }
  assert (Hnil : "" ∉ pathVector (FQ.clear ufq)) by (intros Hin; inversion Hin).
  rewrite Hact. cbn [Bool.eqb].
  destruct (negb (FQ.empty rq)); [|auto 6].
  match goal with |- context [pop_deletes ?f "" ?s'] =>
    destruct (pop_deletes_frame f s' Hruq) as (-> & -> & -> & -> & H5) end.
  auto 6.
Qed.

(** X17: once the render slot is taken, the loop and the watcher never
    give it back: whatever files are added, modified or deleted and
    however often the loop runs, no call reaches the engine, no file is
    converted and [active_render] stays set.  The engine's [onStopped]
    callback, which is no step of the loop, is not among the moves. *)
Theorem loop_never_releases_slot (moves : list Move) (s : WatchState) :
  active_render s = true ->
  "" ∉ pathVector (renderUnqueue s) ->
  "" ∉ pathVector (unfileQueue (queues s)) ->
  engine_calls (run moves s) = engine_calls s
  /\ conversions (run moves s) = conversions s
  /\ active_render (run moves s) = true.
Proof.
  revert s. unfold run.
  induction moves as [|[dir filename action|] moves IH];
    intros s Hact Hunq Hunf; cbn [foldl move].
  - auto.
  - destruct (IH (watcher_event dir filename action s)) as (-> & -> & ->);
      try assumption; [|auto].
    cbn [watcher_event queues]. intros Hin.
    apply handleFileAction_unfile_paths in Hin as [Hin|Hin];
      [contradiction | discriminate].
  - destruct (iteration_frame s Hact Hunq Hunf) as (H1 & H2 & H3 & H4 & H5).
    destruct (IH (DL_main_iteration s) H2 H4 H5) as (-> & -> & ->). auto.
Qed.

Lemma loop_never_releases_slot_witness :
  engine_calls
    (run [Event "/watch/" "b.bsz" Add; Pass;
          Event "/watch/" "a.bsz" Delete; Pass; Pass]
         (DL_main_iteration
            (watcher_event "/watch/" "a.bsz" Add initial_state)))
  = [LoadScene "/watch/a.bsz"; SetResolution 200 200; Start]
  /\ active_render
       (run [Event "/watch/" "b.bsz" Add; Pass;
             Event "/watch/" "a.bsz" Delete; Pass; Pass]
            (DL_main_iteration
               (watcher_event "/watch/" "a.bsz" Add initial_state)))
     = true.
Proof.
  destruct (loop_never_releases_slot
              [Event "/watch/" "b.bsz" Add; Pass;
               Event "/watch/" "a.bsz" Delete; Pass; Pass]
              (DL_main_iteration
                 (watcher_event "/watch/" "a.bsz" Add initial_state)))
    as (H1 & _ & H3).
  - reflexivity.
  - vm_compute. intros Hin. inversion Hin.
  - vm_compute. intros Hin. inversion Hin.
  - split; [rewrite H1; reflexivity | exact H3].
Defined.

(** ** One model, from the palette image to the instancers *)

Lemma read_palette_pixels (img : StbImage) :
  image_wf img ->
  (read256x1PaletteFromPNG (Some img)).2
  = Returned (pixels (img_data img) 0 (Z.to_nat (img_width img))).
Proof.
  intros (Hw & Hh & Hlen). unfold read256x1PaletteFromPNG. cbn [snd].
  change 0 with (Z.of_nat 0) at 1.
  rewrite (palette_loop_pixels (img_data img) (img_width img)
             ltac:(nia) (S (Z.to_nat (img_width img))) 0 []) by lia.
  rewrite Nat.sub_0_r. reflexivity.
Qed.

Lemma pixels_lookup (data : list Z) (count k : nat) (rgba : VmaxRGBA) :
  pixels data 0 count !! k = Some rgba -> rgba = pixel data k.
Proof.
  unfold pixels. rewrite list_lookup_fmap.
  destruct (seq 0 count !! k) as [j|] eqn:Hj; [|discriminate].
  apply lookup_seq in Hj as [-> _]. cbn. congruence.
Qed.

(** X18: for a decoded palette image at least 255 pixels wide and
    snapshots none of which has an empty stream and all of which stay
    inside their chunks, the conversion of one model returns its
    instancers: none is empty, each has the colour of pixel [color - 1]
    of the image, and every instance lies inside the 256x256x256
    grid. *)
Theorem convertVmaxToBella_model_in_grid (img : StbImage)
    (snapshots : list Snapshot) (name : string) :
  image_wf img ->
  255 <= img_width img ->
  Forall (fun snapshot => s_ds snapshot <> []) snapshots ->
  Forall snapshot_in_grid snapshots ->
  exists instancers,
    convertVmaxToBella_model (Some img) snapshots name = Returned instancers
    /\ Forall (fun instancer =>
                 inst_instances instancer <> []
                 /\ inst_rgba instancer
                    = pixel (img_data img)
                            (Z.to_nat (inst_color instancer - 1))
                 /\ Forall in_grid (inst_instances instancer))
              instancers.
Proof.
  intros Hwf Hwidth Hstreams Hs. unfold convertVmaxToBella_model.
  rewrite (read_palette_pixels img Hwf).
  destruct (assembler_in_grid snapshots (VmaxModel_new name) Hstreams Hs
                              (table_wf_new name))
    as (model & -> & Hgrid);
    [intros m c w Hw; rewrite getVoxels_new in Hw; inversion Hw|].
  destruct (instancers_of_used_ok
              model (pixels (img_data img) 0 (Z.to_nat (img_width img)))
              (getUsedMaterialsAndColors model))
    as (instancers & Hrun & _ & Hall).
  { apply used_usable. unfold pixels. rewrite length_fmap, length_seq. lia. }
  exists instancers. split; [exact Hrun|].
  eapply Forall_impl; [exact Hall|].
  intros instancer (_ & Hrgba & Hinst & Hne).
  split; [exact Hne|]. split; [apply (pixels_lookup _ _ _ _ Hrgba)|].
  rewrite Hinst. apply Forall_fmap, Forall_forall. intros w Hw.
  apply (Hgrid _ _ _ Hw).
Qed.

Lemma convertVmaxToBella_model_in_grid_witness :
  exists instancers,
    convertVmaxToBella_model
      (Some (mkStbImage 255 1 (replicate 1020 7)))
      [mkSnapshot 511 4 32767 [7; 255]] "contents1.vmaxb"
    = Returned instancers
    /\ Forall (fun instancer =>
                 inst_instances instancer <> []
                 /\ inst_rgba instancer
                    = pixel (replicate 1020 7)
                            (Z.to_nat (inst_color instancer - 1))
                 /\ Forall in_grid (inst_instances instancer))
              instancers.
Proof.
  apply (convertVmaxToBella_model_in_grid
           (mkStbImage 255 1 (replicate 1020 7))
           [mkSnapshot 511 4 32767 [7; 255]] "contents1.vmaxb").
  - unfold image_wf. cbn [img_width img_height img_data].
    rewrite length_replicate. lia.
  - cbn. lia.
  - constructor; [discriminate | constructor].
  - constructor; [|constructor]. unfold snapshot_in_grid.
    cbn [s_id_c s_st_min3 s_ds].
    split; [lia|]. split; [lia|]. split; [vm_compute; discriminate|].
    repeat constructor; lia.
Defined.





(** ** Property lists *)

(** X20: [getNestedPlistNode] walks a path key by key: walking a path
    that is two paths joined is walking the first and then the second
    from where the first ended, and from a null node every walk ends in
    null, so that a key missing on the way gives null for the whole
    path. *)
Theorem getNestedPlistNode_app {plist_node : Type}
    (plist_dict_get_item : plist_node -> string -> option plist_node)
    (root : option plist_node) (path1 path2 : list string) :
  getNestedPlistNode plist_node plist_dict_get_item root (path1 ++ path2)
  = getNestedPlistNode plist_node plist_dict_get_item
      (getNestedPlistNode plist_node plist_dict_get_item root path1) path2
  /\ getNestedPlistNode plist_node plist_dict_get_item None path2 = None.
Proof.
  assert (Hnull : forall path,
             getNestedPlistNode plist_node plist_dict_get_item None path = None)
    by (intros [|key path]; reflexivity).
  split; [|apply Hnull].
  revert root. induction path1 as [|key path1 IH]; intros root;
    [reflexivity|].
  destruct root as [node|]; cbn [app getNestedPlistNode];
    [apply IH | symmetry; apply Hnull].
Qed.

(** ** Decompression loop of [readPlist] *)

Lemma readPlist_loop_break_nonzero (decode : Z -> Z) (grows : Z -> bool)
    (fuel : nat) :
  forall size decodedSize,
    readPlist_loop decode grows fuel size = Returned (Break decodedSize) ->
    decodedSize <> 0.
Proof.
  induction fuel as [|fuel IH]; intros size decodedSize; cbn [readPlist_loop];
    [discriminate|].
  cbn zeta.
  destruct (Z.eqb_spec (decode size) 0) as [Hz|Hz]; cbn [orb].
  - destruct (resize_succeeds grows size (u64 (size * 2)));
      [apply IH | discriminate].
  - destruct (decode size =? size).
    + destruct (resize_succeeds grows size (u64 (size * 2)));
        [apply IH | discriminate].
    + intros [= <-]. exact Hz.
Qed.

Lemma readPlist_loop_never_breaks (grows : Z -> bool) (fuel : nat) :
  forall size,
    readPlist_loop (fun _ => 0) grows fuel size = OutOfFuel
    \/ exists thrown,
         readPlist_loop (fun _ => 0) grows fuel size = Returned (Throw thrown).
Proof.
  induction fuel as [|fuel IH]; intros size; cbn [readPlist_loop];
    [left; reflexivity|].
  cbn zeta. cbn [Z.eqb orb].
  destruct (resize_succeeds grows size (u64 (size * 2)));
    [apply IH | right; eexists; reflexivity].
Qed.

Lemma readPlist_loop_throws (grows : Z -> bool) (limit : Z) :
  limit <= 2 ^ 63 ->
  (forall size, limit <= size -> grows size = false) ->
  forall (k : nat) (size : Z),
    0 < size < limit -> limit - size <= Z.of_nat k ->
    exists fuel thrown,
      readPlist_loop (fun _ => 0) grows fuel size = Returned (Throw thrown).
Proof.
  intros Hlimit Hrefuse. induction k as [|k IH]; intros size Hsize Hk; [lia|].
  assert (Hdouble : u64 (size * 2) = size * 2) by (apply u64_small; lia).
  destruct (grows (size * 2)) eqn:Hgrows.
  - assert (size * 2 < limit).
    { destruct (Z.lt_ge_cases (size * 2) limit) as [Hlt|Hge]; [exact Hlt|].
      rewrite (Hrefuse _ Hge) in Hgrows. discriminate. }
    destruct (IH (size * 2)) as (fuel & thrown & Hfuel); [lia | lia|].
    exists (S fuel), thrown. cbn [readPlist_loop]. cbn zeta. cbn [Z.eqb orb].
    unfold resize_succeeds. rewrite Hdouble, Hgrows, orb_true_r. exact Hfuel.
  - exists 1%nat, (size * 2). cbn [readPlist_loop]. cbn zeta. cbn [Z.eqb orb].
    unfold resize_succeeds. rewrite Hdouble, Hgrows.
    rewrite (proj2 (Z.leb_gt (size * 2) size)) by lia. reflexivity.
Qed.

(** X21: the decompression loop of [readPlist] is left through its
    [break] only with a decoded size that is not 0, so the branch that
    reports a failed decompression and returns a null pointer is never
    taken.  With a decoder that fails for every size of buffer the loop
    never reaches its [break]: no pass count ends it other than by an
    exception of [resize]; and when the allocator refuses every request
    from some size on, that exception is how a file that is not empty
    leaves [readPlist]. *)
Theorem readPlist_never_reports_failure (decode : Z -> Z) (grows : Z -> bool)
    (rawFileSize : Z) :
  (forall fuel,
     readPlist_decompress decode grows fuel rawFileSize
     <> Returned FailedToDecompress)
  /\ (forall fuel,
        readPlist_decompress (fun _ => 0) grows fuel rawFileSize = OutOfFuel
        \/ exists thrown,
             readPlist_decompress (fun _ => 0) grows fuel rawFileSize
             = Returned (ResizeThrows thrown))
  /\ (forall limit,
        0 < rawFileSize < 2 ^ 61 ->
        limit <= 2 ^ 63 ->
        (forall size, limit <= size -> grows size = false) ->
        exists fuel thrown,
          readPlist_decompress (fun _ => 0) grows fuel rawFileSize
          = Returned (ResizeThrows thrown)).
Proof.
  split; [|split].
  - intros fuel. unfold readPlist_decompress.
    destruct (resize_succeeds grows 0 (u64 (rawFileSize * 8)));
      [|discriminate].
    destruct (readPlist_loop decode grows fuel (u64 (rawFileSize * 8)))
      as [[decodedSize|thrown]| | |] eqn:Hloop; try discriminate.
    apply readPlist_loop_break_nonzero in Hloop.
    destruct (Z.eqb_spec decodedSize 0); [contradiction | discriminate].
  - intros fuel. unfold readPlist_decompress.
    destruct (resize_succeeds grows 0 (u64 (rawFileSize * 8)));
      [|right; eexists; reflexivity].
    destruct (readPlist_loop_never_breaks grows fuel (u64 (rawFileSize * 8)))
      as [-> | [thrown ->]]; [left | right; eexists]; reflexivity.
  - intros limit Hraw Hlimit Hrefuse. unfold readPlist_decompress.
    rewrite u64_small by lia.
    destruct (resize_succeeds grows 0 (rawFileSize * 8)) eqn:Hfirst;
      [|exists 0%nat; eexists; reflexivity].
    assert (Hbelow : rawFileSize * 8 < limit).
    { destruct (Z.lt_ge_cases (rawFileSize * 8) limit) as [Hlt|Hge];
        [exact Hlt|].
      unfold resize_succeeds in Hfirst. rewrite (Hrefuse _ Hge) in Hfirst.
      rewrite (proj2 (Z.leb_gt (rawFileSize * 8) 0)) in Hfirst by lia.
      discriminate. }
    destruct (readPlist_loop_throws grows limit Hlimit Hrefuse
                (Z.to_nat (limit - rawFileSize * 8)) (rawFileSize * 8))
      as (fuel & thrown & Hfuel); [lia | lia|].
    exists fuel, thrown. rewrite Hfuel. reflexivity.
Qed.

Lemma readPlist_never_reports_failure_witness :
  exists fuel thrown,
    readPlist_decompress (fun _ => 0) (fun size => size <? 4096) fuel 100
    = Returned (ResizeThrows thrown).
Proof.
  apply (proj2 (proj2 (readPlist_never_reports_failure
                         (fun _ => 0) (fun size => size <? 4096) 100)) 4096).
  - lia.
  - lia.
  - intros size Hsize. apply Z.ltb_ge. exact Hsize.
Defined.

Lemma readPlist_loop_zero (decode : Z -> Z) (grows : Z -> bool) (fuel : nat) :
  decode 0 = 0 -> readPlist_loop decode grows fuel 0 = OutOfFuel.
Proof.
  intros Hzero. induction fuel as [|fuel IH]; [reflexivity|].
  cbn [readPlist_loop]. cbn zeta. rewrite Hzero. exact IH.
Qed.

(** X22: on an empty file the buffer has size 0 and doubling leaves it
    at 0: whatever the decoder writes into it, it writes no byte, no
    resize asks for memory, and the loop never ends. *)
Theorem readPlist_empty_file_never_returns (decode : Z -> Z)
    (grows : Z -> bool) (fuel : nat) :
  (forall size, 0 <= size -> 0 <= decode size <= size) ->
  readPlist_decompress decode grows fuel 0 = OutOfFuel.
Proof.
  intros Hcontract. unfold readPlist_decompress.
  change (u64 (0 * 8)) with 0. cbn [resize_succeeds Z.leb Z.compare orb].
  rewrite readPlist_loop_zero; [reflexivity|].
  specialize (Hcontract 0). lia.
Qed.

Lemma readPlist_empty_file_never_returns_witness :
  readPlist_decompress (fun size => Z.min size 5) (fun _ => false) 7 0
  = OutOfFuel.
Proof.
  apply (readPlist_empty_file_never_returns (fun size => Z.min size 5)
           (fun _ => false) 7).
  intros size Hsize. lia.
Defined.

Lemma readPlist_loop_returns (decode : Z -> Z) (grows : Z -> bool) (n : Z) :
  decodes_to decode n -> 0 < n < 2 ^ 32 ->
  (forall size, size <= 2 * n -> grows size = true) ->
  forall (k : nat) (size : Z),
    0 < size < 2 ^ 63 -> n - size < Z.of_nat k ->
    exists fuel, readPlist_loop decode grows fuel size = Returned (Break n).
Proof.
  intros Hdec Hn Hgrows. induction k as [|k IH]; intros size Hsize Hk.
  - exists 1%nat. cbn [readPlist_loop]. cbn zeta. rewrite !Hdec by lia.
    rewrite !Z.min_r by lia.
    destruct (Z.eqb_spec n 0); [lia|]. destruct (Z.eqb_spec n size); [lia|].
    reflexivity.
  - destruct (Z.le_gt_cases size n) as [Hle|Hgt].
    + destruct (IH (size * 2)) as [fuel Hfuel]; [lia | lia|].
      exists (S fuel). cbn [readPlist_loop]. cbn zeta. rewrite !Hdec by lia.
      rewrite !Z.min_l by lia. rewrite Z.eqb_refl, orb_true_r.
      rewrite u64_small by lia. unfold resize_succeeds.
      rewrite Hgrows by lia. rewrite orb_true_r. exact Hfuel.
    + exists 1%nat. cbn [readPlist_loop]. cbn zeta. rewrite !Hdec by lia.
      rewrite !Z.min_r by lia.
      destruct (Z.eqb_spec n 0); [lia|]. destruct (Z.eqb_spec n size); [lia|].
      reflexivity.
Qed.

(** X23: on a file that is not empty and whose data decompresses to
    [n] bytes, [n] below 2^32, with a decoder that writes what fits into
    the buffer, and when every resize asked for succeeds (the first one
    to 8 times the size of the file, the later ones to no more than
    twice [n] bytes), the loop ends once the buffer is larger than [n]
    and the plist parser is handed the length [n]. *)
Theorem readPlist_decompress_returns (decode : Z -> Z) (grows : Z -> bool)
    (rawFileSize n : Z) :
  decodes_to decode n ->
  0 < n < 2 ^ 32 ->
  0 < rawFileSize < 2 ^ 60 ->
  (forall size, size <= Z.max (2 * n) (rawFileSize * 8) -> grows size = true) ->
  exists fuel,
    readPlist_decompress decode grows fuel rawFileSize
    = Returned (DecodedBytes n).
Proof.
  intros Hdec Hn Hraw Hgrows.
  destruct (readPlist_loop_returns decode grows n Hdec Hn
              ltac:(intros size Hsize; apply Hgrows; lia)
              (Z.to_nat n) (rawFileSize * 8)) as [fuel Hfuel];
    [lia | lia|].
  exists fuel. unfold readPlist_decompress.
  rewrite u64_small by lia. unfold resize_succeeds at 1.
  rewrite Hgrows by lia. rewrite orb_true_r, Hfuel.
  destruct (Z.eqb_spec n 0); [lia|]. rewrite u32_small by lia. reflexivity.
Qed.

Lemma readPlist_decompress_returns_witness :
  exists fuel,
    readPlist_decompress (fun size => Z.min size 100)
                         (fun size => size <=? 200) fuel 3
    = Returned (DecodedBytes 100).
Proof.
  apply (readPlist_decompress_returns (fun size => Z.min size 100)
           (fun size => size <=? 200) 3 100).
  - intros size _. reflexivity.
  - lia.
  - lia.
  - intros size Hsize. apply Z.leb_le. lia.
Defined.

(** ** Materials *)

Lemma getVmaxMaterials_loop_overflow (dict : MaterialNode) :
  forall (nodes : list (option MaterialNode)) (n : nat) (k : Z)
         (vmaxMaterials : list (option VmaxMaterial)),
    nodes !! n = Some (Some dict) ->
    8 <= k + Z.of_nat n ->
    exists j,
      getVmaxMaterials_loop nodes k vmaxMaterials = OutOfBounds j
      /\ 8 <= j <= k + Z.of_nat n.
Proof.
  induction nodes as [|node nodes IH]; intros n k arr Hn Hk; [discriminate|].
  cbn [getVmaxMaterials_loop]. destruct n as [|n].
  - injection Hn as ->. rewrite (proj2 (Z.ltb_ge k 8)) by lia.
    exists k. split; [reflexivity | lia].
  - cbn in Hn. destruct node as [dict'|].
    + destruct (Z.ltb_spec k 8) as [Hlt|Hge].
      * destruct (IH n (k + 1) (<[Z.to_nat k := Some (material_of_node dict')]> arr)
                     Hn) as (j & -> & Hj); [lia|].
        exists j. split; [reflexivity | lia].
      * exists k. split; [reflexivity | lia].
    + destruct (IH n (k + 1) arr Hn) as (j & -> & Hj); [lia|].
      exists j. split; [reflexivity | lia].
Qed.

(** X24: a [materials] array with a dictionary at index 8 or beyond
    makes [getVmaxMaterials] assign past the end of its array of 8
    materials. *)
Theorem getVmaxMaterials_overflow (nodes : list (option MaterialNode))
    (n : nat) (dict : MaterialNode) :
  nodes !! n = Some (Some dict) ->
  (8 <= n)%nat ->
  exists j,
    getVmaxMaterials (Some nodes) = OutOfBounds j /\ 8 <= j <= Z.of_nat n.
Proof.
  intros Hn Hlen. unfold getVmaxMaterials.
  destruct (getVmaxMaterials_loop_overflow dict nodes n 0 (replicate 8 None) Hn)
    as (j & Hj & Hrange); [lia|].
  exists j. split; [exact Hj | lia].
Qed.

Lemma getVmaxMaterials_overflow_witness :
  exists j,
    getVmaxMaterials
      (Some (replicate 8 None
             ++ [Some (mkMaterialNode None None None None None None)]))
    = OutOfBounds j /\ 8 <= j <= Z.of_nat 8.
Proof.
  apply (getVmaxMaterials_overflow _ 8
           (mkMaterialNode None None None None None None)).
  - reflexivity.
  - lia.
Defined.

Lemma getVmaxMaterials_loop_fits :
  forall (nodes : list (option MaterialNode)) (k : nat)
         (vmaxMaterials : list (option VmaxMaterial)),
    length vmaxMaterials = 8%nat ->
    (k + length nodes <= 8)%nat ->
    exists result,
      getVmaxMaterials_loop nodes (Z.of_nat k) vmaxMaterials = Returned result
      /\ length result = 8%nat
      /\ forall i : nat,
           result !! i
           = if decide (i < k)%nat then vmaxMaterials !! i
             else match nodes !! (i - k)%nat with
                  | Some (Some dict) => Some (Some (material_of_node dict))
                  | _ => vmaxMaterials !! i
                  end.
Proof.
  induction nodes as [|node nodes IH]; intros k arr Harr Hk.
  - exists arr. split; [reflexivity|]. split; [exact Harr|].
    intros i. destruct (decide (i < k)%nat); reflexivity.
  - cbn [length] in Hk. cbn [getVmaxMaterials_loop].
    replace (Z.of_nat k + 1) with (Z.of_nat (S k)) by lia.
    destruct node as [dict|].
    + rewrite (proj2 (Z.ltb_lt (Z.of_nat k) 8)) by lia. rewrite Nat2Z.id.
      destruct (IH (S k) (<[k := Some (material_of_node dict)]> arr))
        as (result & -> & Hlen & Hres);
        [rewrite length_insert; exact Harr | lia|].
      exists result. split; [reflexivity|]. split; [exact Hlen|].
      intros i. rewrite Hres.
      destruct (decide (i < S k)%nat) as [Hi|Hi],
               (decide (i < k)%nat) as [Hi'|Hi']; try lia.
      * apply list_lookup_insert_ne. lia.
      * assert (i = k) as -> by lia. rewrite Nat.sub_diag. cbn.
        apply list_lookup_insert_eq. lia.
      * replace (i - k)%nat with (S (i - S k)) by lia. cbn.
        rewrite list_lookup_insert_ne by lia. reflexivity.
    + destruct (IH (S k) arr Harr) as (result & -> & Hlen & Hres); [lia|].
      exists result. split; [reflexivity|]. split; [exact Hlen|].
      intros i. rewrite Hres.
      destruct (decide (i < S k)%nat) as [Hi|Hi],
               (decide (i < k)%nat) as [Hi'|Hi']; try lia.
      * reflexivity.
      * assert (i = k) as -> by lia. rewrite Nat.sub_diag. reflexivity.
      * replace (i - k)%nat with (S (i - S k)) by lia. reflexivity.
Qed.

(** X25: with at most 8 items in the [materials] array,
    [getVmaxMaterials] returns its 8 materials: entry [i] is the
    material read from item [i] when that item is a dictionary, and is
    never assigned (so holds no defined numbers) when there is no item
    [i] or the item is no dictionary. *)
Theorem getVmaxMaterials_entries (nodes : list (option MaterialNode)) :
  (length nodes <= 8)%nat ->
  exists vmaxMaterials,
    getVmaxMaterials (Some nodes) = Returned vmaxMaterials
    /\ length vmaxMaterials = 8%nat
    /\ forall i : nat,
         (i < 8)%nat ->
         vmaxMaterials !! i
         = Some (match nodes !! i with
                 | Some (Some dict) => Some (material_of_node dict)
                 | _ => None
                 end).
Proof.
  intros Hlen. unfold getVmaxMaterials.
  destruct (getVmaxMaterials_loop_fits nodes 0 (replicate 8 None))
    as (result & Hrun & Hl & Hres); [reflexivity | lia|].
  exists result. split; [exact Hrun|]. split; [exact Hl|].
  intros i Hi. rewrite Hres. rewrite decide_False by lia.
  rewrite Nat.sub_0_r, lookup_replicate_2 by lia.
  destruct (nodes !! i) as [[dict|]|]; reflexivity.
Qed.

Lemma getVmaxMaterials_entries_witness :
  exists vmaxMaterials,
    getVmaxMaterials
      (Some [Some (mkMaterialNode (Some (Some "stone")) None None (Some 5)
                                  None (Some false));
             None])
    = Returned vmaxMaterials
    /\ length vmaxMaterials = 8%nat
    /\ forall i : nat,
         (i < 8)%nat ->
         vmaxMaterials !! i
         = Some (match [Some (mkMaterialNode (Some (Some "stone")) None None
                                             (Some 5) None (Some false));
                        None] !! i with
                 | Some (Some dict) => Some (material_of_node dict)
                 | _ => None
                 end).
Proof.
  apply getVmaxMaterials_entries. cbn. lia.
Defined.

(** ** Models by data file *)

Lemma models_of_file_cons (file : string) (entry : string * JsonModelInfo)
    (models : list (string * JsonModelInfo)) :
  models_of_file file (entry :: models)
  = if decide (jm_dataFile entry.2 = file)
    then entry.2 :: models_of_file file models
    else models_of_file file models.
Proof.
  unfold models_of_file. rewrite fmap_cons, filter_cons.
  destruct (decide (jm_dataFile entry.2 = file)); reflexivity.
Qed.

Lemma fileMap_lookup (file : string) :
  forall (models : list (string * JsonModelInfo))
         (fileMap : gmap string (list JsonModelInfo)),
    foldl (fun fileMap entry =>
             let model := entry.2 in
             <[jm_dataFile model :=
                 default [] (fileMap !! jm_dataFile model) ++ [model]]> fileMap)
          fileMap models !! file
    = match fileMap !! file with
      | Some group => Some (group ++ models_of_file file models)
      | None =>
        match models_of_file file models with
        | [] => None
        | model :: rest => Some (model :: rest)
        end
      end.
Proof.
  induction models as [|entry models IH]; intros fileMap.
  - cbn [foldl]. unfold models_of_file. cbn.
    destruct (fileMap !! file); [rewrite app_nil_r|]; reflexivity.
  - cbn [foldl]. rewrite IH. cbn zeta. rewrite models_of_file_cons.
    destruct (decide (jm_dataFile entry.2 = file)) as [Heq|Hne].
    + rewrite Heq, lookup_insert_eq.
      destruct (fileMap !! file) as [group|]; cbn [default from_option].
      * unfold id. rewrite <- app_assoc. reflexivity.
      * reflexivity.
    + rewrite lookup_insert_ne by exact Hne. reflexivity.
Qed.

(** X26: [getModelContentVMaxbMap] has an entry for a data file exactly
    when some model uses the file, and the entry lists the models that
    use it, all of them and in the order of the map of models: no entry
    is empty, so the first model of an entry, which the converter takes
    as the canonical one, is there. *)
Theorem getModelContentVMaxbMap_groups (models : list (string * JsonModelInfo))
    (file : string) (group : list JsonModelInfo) :
  getModelContentVMaxbMap models !! file = Some group
  <-> group <> [] /\ group = models_of_file file models.
Proof.
  unfold getModelContentVMaxbMap. rewrite fileMap_lookup, lookup_empty.
  destruct (models_of_file file models) as [|model rest].
  - split; [discriminate | intros [Hne ->]; contradiction].
  - split; [intros [= <-]; split; [discriminate | reflexivity]
           | intros [_ ->]; reflexivity].
Qed.
